(** * Ocean Todos: the task list store of [todo_frontend/src/App.js]

    A shallow embedding of the [useTodos] hook (state, mutations, derived
    views, persistence helpers) and of the parts of the JavaScript platform
    it calls: strings as sequences of UTF-16 code units, [String.prototype.trim],
    [Number.prototype.toString], [JSON.stringify], [JSON.parse] and
    [localStorage]. *)

From Stdlib Require Import ZArith NArith List Bool Lia String Ascii.
From stdpp Require Import gmap.
Import ListNotations.

Local Open Scope Z_scope.
Set Warnings "-register-all".

(** ** JavaScript strings *)

(** A string value is a finite sequence of 16-bit code units. *)
Abbreviation char16 := N (only parsing).
Abbreviation jsstring := (list N) (only parsing).

(** A literal of the source text, one code unit per character. *)
Definition lit (s : string) : jsstring :=
  List.map N_of_ascii (list_ascii_of_string s).

(** A literal of JSON text, written with ['] where the text has the double
    quote. *)
Definition json_lit (s : string) : jsstring :=
  List.map (fun c => if (c =? 39)%N then 34%N else c) (lit s).

Fixpoint jsstring_eqb (a b : jsstring) : bool :=
  match a, b with
  | [], [] => true
  | x :: a', y :: b' => (x =? y)%N && jsstring_eqb a' b'
  | _, _ => false
  end.

(** WhiteSpace and LineTerminator code units, the ones [trim] strips. *)
Definition is_white_space (c : char16) : bool :=
  ((c =? 0x09) || (c =? 0x0A) || (c =? 0x0B) || (c =? 0x0C) || (c =? 0x0D)
   || (c =? 0x20) || (c =? 0xA0) || (c =? 0x1680)
   || ((0x2000 <=? c) && (c <=? 0x200A))
   || (c =? 0x2028) || (c =? 0x2029) || (c =? 0x202F) || (c =? 0x205F)
   || (c =? 0x3000) || (c =? 0xFEFF))%N.

Fixpoint trim_start (s : jsstring) : jsstring :=
  match s with
  | c :: r => if is_white_space c then trim_start r else s
  | [] => []
  end.

Definition trim_end (s : jsstring) : jsstring := rev (trim_start (rev s)).

(** [String.prototype.trim] *)
Definition trim (s : jsstring) : jsstring := trim_end (trim_start s).

(** [s.slice(from, to)] for non-negative indices. *)
Definition slice (from to : nat) (s : jsstring) : jsstring :=
  firstn (to - from) (skipn from s).

(** ** Numbers to text *)

(** The digit character of a value below the radix: [0-9] then [a-z]. *)
Definition digit_char (d : N) : char16 :=
  (if d <? 10 then 48 + d else 87 + d)%N.

(** Digits of [n] in the given radix, most significant first.  The fuel
    bounds the number of digits. *)
Fixpoint digits_fuel (radix : N) (fuel : nat) (n : N) : jsstring :=
  match fuel with
  | O => [digit_char n]
  | S f =>
      if (n <? radix)%N then [digit_char n]
      else digits_fuel radix f (n / radix)%N ++ [digit_char (n mod radix)%N]
  end.

Definition digits (radix : N) (n : N) : jsstring :=
  digits_fuel radix (N.size_nat n) n.

(** [Number.prototype.toString(radix)] on an integer. *)
Definition int_toString (radix : N) (z : Z) : jsstring :=
  (if z <? 0 then lit "-" else []) ++ digits radix (Z.abs_N z).

(** ** Values and exceptions *)

(** The values that [JSON.parse] can build, and [undefined].  A number is
    kept as the decimal [mantissa * 10 ^ exponent] of its literal (rounding to
    binary64 is not modelled, integers of the timestamp range are exact); an
    object lists its members in the order of its own keys: array indices
    first, ascending, then the other keys in the order of their creation. *)
Inductive value : Type :=
  | VUndefined
  | VNull
  | VBool (b : bool)
  | VNum (mantissa exponent : Z)
  | VStr (s : jsstring)
  | VArr (elements : list value)
  | VObj (members : list (jsstring * value)).

Inductive error : Type :=
  | TypeError | SyntaxError | QuotaExceededError | SecurityError.

(** A computation either returns or throws. *)
Inductive outcome (A : Type) : Type :=
  | Return (a : A)
  | Throw (e : error).
Arguments Return {A} a.
Arguments Throw {A} e.

Definition bind {A B} (m : outcome A) (k : A -> outcome B) : outcome B :=
  match m with
  | Return a => k a
  | Throw e => Throw e
  end.

(** [try { body } catch (_e) { handler }] *)
Definition try_catch {A} (body : outcome A) (handler : error -> outcome A)
  : outcome A :=
  match body with
  | Return a => Return a
  | Throw e => handler e
  end.

#[global] Instance outcome_ret : MRet outcome := fun A a => Return a.
#[global] Instance outcome_bind : MBind outcome := fun A B k m => bind m k.

(** The number [m * 10^e] is zero as a Number: it is zero, or so small
    that it rounds to zero, which is at most half the least positive value,
    [2^-1075]. *)
Definition rounds_to_zero (m e : Z) : bool :=
  if e <? 0 then Z.abs m * 2 ^ 1075 <=? 10 ^ (- e) else m =? 0.

(** ToBoolean *)
Definition truthy (v : value) : bool :=
  match v with
  | VUndefined | VNull => false
  | VBool b => b
  | VNum m e => negb (rounds_to_zero m e)
  | VStr s => match s with [] => false | _ => true end
  | VArr _ | VObj _ => true
  end.

(** [v === s] for a string [s]: strict equality never converts. *)
Definition strict_eq_string (v : value) (s : jsstring) : bool :=
  match v with
  | VStr s' => jsstring_eqb s' s
  | _ => false
  end.

(** ** The data model *)

Module Todo.
(** [@typedef {{ id, title, completed, createdAt }} Todo] *)
Record t : Type := mk {
  id : jsstring;
  title : jsstring;
  completed : bool;
  createdAt : Z
}.
End Todo.

Module Counts.
(** The object that [counts] returns. *)
Record t : Type := mk { total : Z; active : Z; completed : Z }.
End Counts.

(** The two [useState] cells of [useTodos].  The filter cell holds whatever
    value was stored or set. *)
Record State : Type := mkState {
  todos : list Todo.t;
  filter : value
}.

Definition DEFAULT_FILTER : jsstring := lit "all".

(** What one call of [addTodo] reads from its environment: [Date.now()] in
    [uid], the text of [Math.random().toString(36)], and [Date.now()] again
    for [createdAt]. *)
Record Readings : Type := mkReadings {
  uid_now : Z;
  uid_random36 : jsstring;
  created_now : Z
}.

(** ** The store *)

(** [`${Date.now().toString(36)}-${Math.random().toString(36).slice(2, 8)}`] *)
Definition uid (now : Z) (random36 : jsstring) : jsstring :=
  int_toString 36 now ++ lit "-" ++ slice 2 8 random36.

Definition setTodos (f : list Todo.t -> list Todo.t) (s : State) : State :=
  {| todos := f (todos s); filter := filter s |}.

Definition setFilter (v : value) (s : State) : State :=
  {| todos := todos s; filter := v |}.

(** The empty string ['']. *)
Definition empty_string : jsstring := [].

(** [a || b] on strings: the empty string is the only falsy one. *)
Definition or_string (a b : jsstring) : jsstring :=
  match a with [] => b | _ => a end.

Definition addTodo (env : Readings) (title : jsstring) (s : State) : State :=
  let trimmed := trim (or_string title empty_string) in
  match trimmed with
  | [] => s
  | _ =>
      setTodos (fun prev =>
        {| Todo.id := uid (uid_now env) (uid_random36 env);
           Todo.title := trimmed;
           Todo.completed := false;
           Todo.createdAt := created_now env |} :: prev) s
  end.

Definition toggleTodo (id : jsstring) (s : State) : State :=
  setTodos (fun prev =>
    List.map (fun t =>
      if jsstring_eqb (Todo.id t) id
      then {| Todo.id := Todo.id t; Todo.title := Todo.title t;
              Todo.completed := negb (Todo.completed t);
              Todo.createdAt := Todo.createdAt t |}
      else t) prev) s.

Definition deleteTodo (id : jsstring) (s : State) : State :=
  setTodos (fun prev =>
    List.filter (fun t => negb (jsstring_eqb (Todo.id t) id)) prev) s.

Definition clearCompleted (s : State) : State :=
  setTodos (fun prev => List.filter (fun t => negb (Todo.completed t)) prev) s.

Definition filtered (s : State) : list Todo.t :=
  if strict_eq_string (filter s) (lit "active")
  then List.filter (fun t => negb (Todo.completed t)) (todos s)
  else if strict_eq_string (filter s) (lit "completed")
  then List.filter (fun t => Todo.completed t) (todos s)
  else todos s.

Definition counts (s : State) : Counts.t :=
  let active := Z.of_nat (length (List.filter (fun t => negb (Todo.completed t)) (todos s))) in
  let completed := Z.of_nat (length (todos s)) - active in
  {| Counts.total := Z.of_nat (length (todos s));
     Counts.active := active;
     Counts.completed := completed |}.

(** What [useTodos] hands to the view on one render. *)
Record View : Type := mkView {
  view_todos : list Todo.t;
  view_filtered : list Todo.t;
  view_filter : value;
  view_counts : Counts.t
}.

Definition useTodos (s : State) : View :=
  {| view_todos := todos s;
     view_filtered := filtered s;
     view_filter := filter s;
     view_counts := counts s |}.

(** The user's actions, each with what it reads from the environment. *)
Inductive action : Type :=
  | AddTodo (env : Readings) (title : jsstring)
  | ToggleTodo (id : jsstring)
  | DeleteTodo (id : jsstring)
  | ClearCompleted
  | SetFilter (v : value).

Definition step (a : action) (s : State) : State :=
  match a with
  | AddTodo env title => addTodo env title s
  | ToggleTodo id => toggleTodo id s
  | DeleteTodo id => deleteTodo id s
  | ClearCompleted => clearCompleted s
  | SetFilter v => setFilter v s
  end.

Definition run (acts : list action) (s : State) : State :=
  fold_left (fun st a => step a st) acts s.

Definition empty_state : State := {| todos := []; filter := VStr DEFAULT_FILTER |}.

(** ** [JSON.stringify] *)

Definition is_leading_surrogate (c : char16) : bool :=
  ((0xD800 <=? c) && (c <=? 0xDBFF))%N.
Definition is_trailing_surrogate (c : char16) : bool :=
  ((0xDC00 <=? c) && (c <=? 0xDFFF))%N.

(** UnicodeEscape: a backslash, [u] and four lowercase hexadecimal digits. *)
Definition unicode_escape (c : char16) : jsstring :=
  [0x5C; 0x75;
   digit_char (c / 4096); digit_char ((c / 256) mod 16);
   digit_char ((c / 16) mod 16); digit_char (c mod 16)]%N.

(** One code unit that is not the start of a surrogate pair. *)
Definition quote_unit (c : char16) : jsstring :=
  (if c =? 0x08 then lit "\b"
   else if c =? 0x09 then lit "\t"
   else if c =? 0x0A then lit "\n"
   else if c =? 0x0C then lit "\f"
   else if c =? 0x0D then lit "\r"
   else if c =? 0x22 then [0x5C; 0x22]
   else if c =? 0x5C then [0x5C; 0x5C]
   else if (c <? 0x20) || is_leading_surrogate c || is_trailing_surrogate c
   then unicode_escape c
   else [c])%N.

(** The body of QuoteJSONString: a surrogate pair is copied, a lone
    surrogate is escaped. *)
Fixpoint quote_units (s : jsstring) : jsstring :=
  match s with
  | [] => []
  | c :: r =>
      if is_leading_surrogate c then
        match r with
        | c2 :: r2 =>
            if is_trailing_surrogate c2 then c :: c2 :: quote_units r2
            else unicode_escape c ++ quote_units r
        | [] => unicode_escape c
        end
      else quote_unit c ++ quote_units r
  end.

Definition QuoteJSONString (s : jsstring) : jsstring :=
  [0x22%N] ++ quote_units s ++ [0x22%N].

Fixpoint drop_zeros (s : jsstring) : jsstring :=
  match s with
  | c :: r => if (c =? 48)%N then drop_zeros r else s
  | [] => []
  end.

Definition strip_trailing_zeros (s : jsstring) : jsstring :=
  rev (drop_zeros (rev s)).

(** Number::toString in radix 10 of [m * 10 ^ e]: [s] holds the [k]
    significant digits and [n] places the decimal point. *)
Definition number_toString (m e : Z) : jsstring :=
  if m =? 0 then lit "0" else
  let ds := digits 10 (Z.abs_N m) in
  let s := strip_trailing_zeros ds in
  let k := Z.of_nat (length s) in
  let n := Z.of_nat (length ds) + e in
  (if m <? 0 then lit "-" else []) ++
  (if (k <=? n) && (n <=? 21) then s ++ repeat 48%N (Z.to_nat (n - k))
   else if (0 <? n) && (n <=? 21)
   then firstn (Z.to_nat n) s ++ lit "." ++ skipn (Z.to_nat n) s
   else if (-6 <? n) && (n <=? 0)
   then lit "0." ++ repeat 48%N (Z.to_nat (- n)) ++ s
   else
     let exponent :=
       lit "e" ++ (if n - 1 <? 0 then lit "-" else lit "+")
               ++ digits 10 (Z.abs_N (n - 1)) in
     match s with
     | [d] => [d] ++ exponent
     | d :: r => [d] ++ lit "." ++ r ++ exponent
     | [] => exponent
     end).

Definition join_comma (parts : list jsstring) : jsstring :=
  match parts with
  | [] => []
  | p :: ps => p ++ concat (List.map (fun q => lit "," ++ q) ps)
  end.

(** SerializeJSONProperty without replacer or indentation; [None] is the
    [undefined] it gives for [undefined]. *)
Fixpoint SerializeJSONProperty (v : value) : option jsstring :=
  match v with
  | VUndefined => None
  | VNull => Some (lit "null")
  | VBool b => Some (if b then lit "true" else lit "false")
  | VNum m e => Some (number_toString m e)
  | VStr s => Some (QuoteJSONString s)
  | VArr l =>
      let items :=
        List.map (fun x =>
          match SerializeJSONProperty x with
          | Some t => t
          | None => lit "null"
          end) l in
      Some (lit "[" ++ join_comma items ++ lit "]")
  | VObj ms =>
      let members :=
        (fix go (ms : list (jsstring * value)) : list jsstring :=
           match ms with
           | [] => []
           | (k, x) :: r =>
               match SerializeJSONProperty x with
               | Some t => (QuoteJSONString k ++ lit ":" ++ t) :: go r
               | None => go r
               end
           end) ms in
      Some (lit "{" ++ join_comma members ++ lit "}")
  end.

Definition JSON_stringify (v : value) : option jsstring := SerializeJSONProperty v.

(** The JavaScript objects of the typed data. *)
Definition todo_value (t : Todo.t) : value :=
  VObj [(lit "id", VStr (Todo.id t));
        (lit "title", VStr (Todo.title t));
        (lit "completed", VBool (Todo.completed t));
        (lit "createdAt", VNum (Todo.createdAt t) 0)].

Definition todos_value (l : list Todo.t) : value := VArr (List.map todo_value l).

(** ** [JSON.parse] *)

Definition is_json_ws (c : char16) : bool :=
  ((c =? 0x09) || (c =? 0x0A) || (c =? 0x0D) || (c =? 0x20))%N.

Fixpoint skip_ws (s : jsstring) : jsstring :=
  match s with
  | c :: r => if is_json_ws c then skip_ws r else s
  | [] => []
  end.

Definition is_digit (c : char16) : bool := ((48 <=? c) && (c <=? 57))%N.

(** The longest prefix of decimal digits, and what follows it. *)
Fixpoint take_digits (s : jsstring) : jsstring * jsstring :=
  match s with
  | c :: r =>
      if is_digit c then let '(ds, rest) := take_digits r in (c :: ds, rest)
      else ([], s)
  | [] => ([], [])
  end.

Definition digits_value (ds : jsstring) : N :=
  fold_left (fun acc c => (10 * acc + (c - 48))%N) ds 0%N.

Definition hex_value (c : char16) : option N :=
  (if (48 <=? c) && (c <=? 57) then Some (c - 48)
   else if (97 <=? c) && (c <=? 102) then Some (c - 87)
   else if (65 <=? c) && (c <=? 70) then Some (c - 55)
   else None)%N.

Definition hex4_value (a b c d : char16) : option char16 :=
  match hex_value a, hex_value b, hex_value c, hex_value d with
  | Some x, Some y, Some z, Some w => Some (x * 4096 + y * 256 + z * 16 + w)%N
  | _, _, _, _ => None
  end.

(** JSONEscapeSequence, the single-character ones. *)
Definition simple_escape (c : char16) : option char16 :=
  (if c =? 0x22 then Some 0x22
   else if c =? 0x2F then Some 0x2F
   else if c =? 0x5C then Some 0x5C
   else if c =? 0x62 then Some 0x08
   else if c =? 0x66 then Some 0x0C
   else if c =? 0x6E then Some 0x0A
   else if c =? 0x72 then Some 0x0D
   else if c =? 0x74 then Some 0x09
   else None)%N.

Definition cons_fst {A B} (a : A) (r : option (list A * B)) : option (list A * B) :=
  match r with
  | Some (l, b) => Some (a :: l, b)
  | None => None
  end.

(** JSONStringCharacters up to and including the closing quote. *)
Fixpoint string_chars (s : jsstring) : option (jsstring * jsstring) :=
  match s with
  | [] => None
  | c :: r =>
      if (c =? 0x22)%N then Some ([], r)
      else if (c =? 0x5C)%N then
        match r with
        | [] => None
        | e :: r1 =>
            if (e =? 0x75)%N then
              match r1 with
              | h1 :: h2 :: h3 :: h4 :: r2 =>
                  match hex4_value h1 h2 h3 h4 with
                  | Some u => cons_fst u (string_chars r2)
                  | None => None
                  end
              | _ => None
              end
            else
              match simple_escape e with
              | Some u => cons_fst u (string_chars r1)
              | None => None
              end
        end
      else if (c <? 0x20)%N then None
      else cons_fst c (string_chars r)
  end.

(** DecimalIntegerLiteral: a zero alone, or digits that start with none. *)
Definition integer_part (s : jsstring) : option (jsstring * jsstring) :=
  match s with
  | c :: r =>
      if (c =? 48)%N then Some ([c], r)
      else if is_digit c then Some (take_digits s)
      else None
  | [] => None
  end.

(** JSONFraction, if there is one: a point and at least one digit. *)
Definition fraction_part (s : jsstring) : option (jsstring * jsstring) :=
  match s with
  | c :: r =>
      if (c =? 0x2E)%N then
        match take_digits r with
        | ([], _) => None
        | (fs, rest) => Some (fs, rest)
        end
      else Some ([], s)
  | [] => Some ([], s)
  end.

(** ExponentPart, if there is one: [e] or [E], a sign, at least one digit. *)
Definition exponent_part (s : jsstring) : option (Z * jsstring) :=
  match s with
  | c :: r =>
      if (c =? 0x65)%N || (c =? 0x45)%N then
        let '(negative, r1) :=
          match r with
          | g :: r' =>
              if (g =? 0x2D)%N then (true, r')
              else if (g =? 0x2B)%N then (false, r')
              else (false, r)
          | [] => (false, r)
          end in
        match take_digits r1 with
        | ([], _) => None
        | (es, rest) =>
            let x := Z.of_N (digits_value es) in
            Some (if negative then - x else x, rest)
        end
      else Some (0, s)
  | [] => Some (0, s)
  end.

(** JSONNumber: the mantissa and the exponent of ten of the literal. *)
Definition parse_number (s : jsstring) : option (Z * Z * jsstring) :=
  let '(negative, s1) :=
    match s with
    | c :: r => if (c =? 0x2D)%N then (true, r) else (false, s)
    | [] => (false, s)
    end in
  match integer_part s1 with
  | None => None
  | Some (ints, s2) =>
      match fraction_part s2 with
      | None => None
      | Some (fracs, s3) =>
          match exponent_part s3 with
          | None => None
          | Some (x, s4) =>
              let m := Z.of_N (digits_value (ints ++ fracs)) in
              Some (if negative then - m else m,
                    x - Z.of_nat (length fracs), s4)
          end
      end
  end.

(** The rest of a keyword after its first letter. *)
Fixpoint expect (word s : jsstring) : option jsstring :=
  match word with
  | [] => Some s
  | w :: word' =>
      match s with
      | c :: r => if (c =? w)%N then expect word' r else None
      | [] => None
      end
  end.

(** An array index: the canonical decimal text of an integer below
    [2^32 - 1]. *)
Definition array_index (k : jsstring) : option N :=
  match k with
  | [] => None
  | c :: r =>
      if forallb is_digit k
         && (negb (c =? 48)%N || match r with [] => true | _ => false end)
         && (digits_value k <? 4294967295)%N
      then Some (digits_value k)
      else None
  end.

(** The order of the own property keys of an object: a new key [k] comes
    before the key [k'] that is there when [k] is an array index and [k'] is
    a larger one or none; every other new key comes after [k']. *)
Definition key_before (k k' : jsstring) : bool :=
  match array_index k with
  | Some n =>
      match array_index k' with
      | Some n' => (n <? n')%N
      | None => true
      end
  | None => false
  end.

Definition has_key (k : jsstring) (ms : list (jsstring * value)) : bool :=
  existsb (fun kv => jsstring_eqb (fst kv) k) ms.

Fixpoint set_value (k : jsstring) (v : value)
    (ms : list (jsstring * value)) : list (jsstring * value) :=
  match ms with
  | [] => []
  | (k', v') :: r =>
      if jsstring_eqb k' k then (k, v) :: r
      else (k', v') :: set_value k v r
  end.

Fixpoint insert_key (k : jsstring) (v : value)
    (ms : list (jsstring * value)) : list (jsstring * value) :=
  match ms with
  | [] => [(k, v)]
  | (k', v') :: r =>
      if key_before k k' then (k, v) :: ms
      else (k', v') :: insert_key k v r
  end.

(** CreateDataProperty, on the members in the order in which the object
    lists them: a key that is there keeps its place and gets the new value;
    a new key is put among the array indices, in ascending order, when it
    is one, and at the end otherwise. *)
Definition define_property (k : jsstring) (v : value)
    (ms : list (jsstring * value)) : list (jsstring * value) :=
  if has_key k ms then set_value k v ms else insert_key k v ms.

Definition make_object (ms : list (jsstring * value)) : value :=
  VObj (fold_left (fun acc kv => define_property (fst kv) (snd kv) acc) ms []).

(** JSONValue by recursive descent.  [parse_elements] reads the elements of
    an array after its bracket, [parse_members] the members of an object
    after its brace.  The fuel bounds the depth of the calls. *)
Fixpoint parse_value (fuel : nat) (s : jsstring) : option (value * jsstring) :=
  match fuel with
  | O => None
  | S f =>
      match skip_ws s with
      | [] => None
      | c :: r =>
          if (c =? 0x22)%N then
            match string_chars r with
            | Some (str, r') => Some (VStr str, r')
            | None => None
            end
          else if (c =? 0x5B)%N then
            match skip_ws r with
            | c' :: r' =>
                if (c' =? 0x5D)%N then Some (VArr [], r')
                else
                  match parse_elements f r with
                  | Some (vs, r'') => Some (VArr vs, r'')
                  | None => None
                  end
            | [] => None
            end
          else if (c =? 0x7B)%N then
            match skip_ws r with
            | c' :: r' =>
                if (c' =? 0x7D)%N then Some (VObj [], r')
                else
                  match parse_members f r with
                  | Some (ms, r'') => Some (make_object ms, r'')
                  | None => None
                  end
            | [] => None
            end
          else if (c =? 0x74)%N then
            match expect (lit "rue") r with
            | Some r' => Some (VBool true, r')
            | None => None
            end
          else if (c =? 0x66)%N then
            match expect (lit "alse") r with
            | Some r' => Some (VBool false, r')
            | None => None
            end
          else if (c =? 0x6E)%N then
            match expect (lit "ull") r with
            | Some r' => Some (VNull, r')
            | None => None
            end
          else
            match parse_number (c :: r) with
            | Some (m, e, r') => Some (VNum m e, r')
            | None => None
            end
      end
  end
with parse_elements (fuel : nat) (s : jsstring) : option (list value * jsstring) :=
  match fuel with
  | O => None
  | S f =>
      match parse_value f s with
      | None => None
      | Some (v, r) =>
          match skip_ws r with
          | c :: r' =>
              if (c =? 0x2C)%N then
                match parse_elements f r' with
                | Some (vs, r'') => Some (v :: vs, r'')
                | None => None
                end
              else if (c =? 0x5D)%N then Some ([v], r')
              else None
          | [] => None
          end
      end
  end
with parse_members (fuel : nat) (s : jsstring)
    : option (list (jsstring * value) * jsstring) :=
  match fuel with
  | O => None
  | S f =>
      match skip_ws s with
      | c :: r =>
          if (c =? 0x22)%N then
            match string_chars r with
            | None => None
            | Some (k, r1) =>
                match skip_ws r1 with
                | c1 :: r2 =>
                    if (c1 =? 0x3A)%N then
                      match parse_value f r2 with
                      | None => None
                      | Some (v, r3) =>
                          match skip_ws r3 with
                          | c3 :: r4 =>
                              if (c3 =? 0x2C)%N then
                                match parse_members f r4 with
                                | Some (ms, r5) => Some ((k, v) :: ms, r5)
                                | None => None
                                end
                              else if (c3 =? 0x7D)%N then Some ([(k, v)], r4)
                              else None
                          | [] => None
                          end
                      end
                    else None
                | [] => None
                end
            end
          else None
      | [] => None
      end
  end.

(** [JSON.parse(text)]: one value between white space, or a SyntaxError.
    Twice the length of the text is fuel enough for any text. *)
Definition JSON_parse (text : jsstring) : outcome value :=
  match parse_value (2 * length text + 2) text with
  | Some (v, rest) =>
      match skip_ws rest with
      | [] => Return v
      | _ => Throw SyntaxError
      end
  | None => Throw SyntaxError
  end.

(** ** [localStorage] *)

(** The stored items, whether the storage can be reached at all (a browser
    may refuse it), and which writes the browser accepts (it refuses one
    that exceeds the quota). *)
Record Storage : Type := mkStorage {
  items : gmap (list N) (list N);
  reachable : bool;
  accepts : jsstring -> jsstring -> bool
}.

Definition getItem (st : Storage) (key : jsstring) : outcome (option jsstring) :=
  if reachable st then Return (items st !! key) else Throw SecurityError.

Definition setItem (st : Storage) (key text : jsstring) : outcome Storage :=
  if reachable st then
    if accepts st key text
    then Return {| items := <[key := text]> (items st);
                   reachable := reachable st;
                   accepts := accepts st |}
    else Throw QuotaExceededError
  else Throw SecurityError.

Definition STORAGE_KEY : jsstring := lit "todo_app_items_v1".
Definition STORAGE_FILTER_KEY : jsstring := lit "todo_app_filter_v1".

Definition loadStorage (key : jsstring) (fallback : value) (st : Storage)
  : outcome value :=
  try_catch
    (raw ← getItem st key;
     match raw with
     | None => Return fallback
     | Some [] => Return fallback
     | Some text => JSON_parse text
     end)
    (fun _e => Return fallback).

(** The storage after [saveStorage(key, data)].  [setItem] is given the
    text of [undefined] when [JSON.stringify] returns [undefined]. *)
Definition saveStorage (key : jsstring) (data : value) (st : Storage)
  : outcome Storage :=
  try_catch
    (setItem st key
       match JSON_stringify data with
       | Some text => text
       | None => lit "undefined"
       end)
    (fun _e => Return st).

(** ** The hook on whatever the storage holds *)

(** The two state cells as [useState] initialises them: any value that
    [JSON.parse] can return. *)
Record Cells : Type := mkCells {
  cell_todos : value;
  cell_filter : value
}.

Definition initial_cells (st : Storage) : outcome Cells :=
  t ← loadStorage STORAGE_KEY (VArr []) st;
  f ← loadStorage STORAGE_FILTER_KEY (VStr DEFAULT_FILTER) st;
  mret {| cell_todos := t; cell_filter := f |}.

(** [t.completed]: reading a property of [null] or [undefined] throws; a
    member that is missing reads as [undefined]. *)
Definition get_completed (t : value) : outcome value :=
  match t with
  | VUndefined | VNull => Throw TypeError
  | VObj ms =>
      Return
        match List.find (fun kv => jsstring_eqb (fst kv) (lit "completed")) ms with
        | Some kv => snd kv
        | None => VUndefined
        end
  | _ => Return VUndefined
  end.

Fixpoint filter_elements (keep : value -> outcome bool) (l : list value)
  : outcome (list value) :=
  match l with
  | [] => Return []
  | x :: r =>
      b ← keep x;
      rest ← filter_elements keep r;
      mret (if b : bool then x :: rest else rest)
  end.

(** [v.filter(keep)]: only an array has a [filter] method. *)
Definition array_filter (keep : value -> outcome bool) (v : value)
  : outcome (list value) :=
  match v with
  | VArr l => filter_elements keep l
  | _ => Throw TypeError
  end.

Definition not_completed (t : value) : outcome bool :=
  c ← get_completed t; mret (negb (truthy c)).
Definition is_completed (t : value) : outcome bool :=
  c ← get_completed t; mret (truthy c).

Record CellsView : Type := mkCellsView {
  cv_todos : value;
  cv_filtered : value;
  cv_filter : value;
  cv_counts : Counts.t
}.

(** The body of [useTodos] after the state cells: the two [useMemo]
    computations and the returned object. *)
Definition render_cells (c : Cells) : outcome CellsView :=
  flt ←
    (if strict_eq_string (cell_filter c) (lit "active")
     then l ← array_filter not_completed (cell_todos c); mret (VArr l)
     else if strict_eq_string (cell_filter c) (lit "completed")
     then l ← array_filter is_completed (cell_todos c); mret (VArr l)
     else mret (cell_todos c));
  act ← array_filter not_completed (cell_todos c);
  (* [todos.length]: an array, since its [filter] returned *)
  let len :=
    match cell_todos c with
    | VArr l => Z.of_nat (length l)
    | _ => 0
    end in
  let active := Z.of_nat (length act) in
  mret {| cv_todos := cell_todos c;
          cv_filtered := flt;
          cv_filter := cell_filter c;
          cv_counts := {| Counts.total := len;
                          Counts.active := active;
                          Counts.completed := len - active |} |}.

(** The first call of [useTodos]: initialise the cells from the storage,
    then compute the views. *)
Definition mount (st : Storage) : outcome CellsView :=
  c ← initial_cells st; render_cells c.

(** The cells of a well-typed state, and its view as values. *)
Definition cells_of (s : State) : Cells :=
  {| cell_todos := todos_value (todos s); cell_filter := filter s |}.

Definition view_value (v : View) : CellsView :=
  {| cv_todos := todos_value (view_todos v);
     cv_filtered := todos_value (view_filtered v);
     cv_filter := view_filter v;
     cv_counts := view_counts v |}.

(** The two [useEffect] writes. *)
Definition persist_todos (s : State) (st : Storage) : outcome Storage :=
  saveStorage STORAGE_KEY (todos_value (todos s)) st.
Definition persist_filter (s : State) (st : Storage) : outcome Storage :=
  saveStorage STORAGE_FILTER_KEY (filter s) st.

(** ** Vocabulary of the statements *)

(** What is left of a string starts with no white space. *)
Definition starts_clean (s : jsstring) : Prop :=
  match s with
  | [] => True
  | c :: _ => is_white_space c = false
  end.

Definition ids (l : list Todo.t) : list jsstring := List.map Todo.id l.

(** The number of tasks that are done. *)
Fixpoint count_completed (l : list Todo.t) : nat :=
  match l with
  | [] => 0%nat
  | t :: r => ((if Todo.completed t then 1 else 0) + count_completed r)%nat
  end.

(** [l'] is [l] restricted to the tasks that satisfy [p]: a subsequence of
    [l] (so order is kept), holding exactly the tasks of [l] that satisfy [p],
    and every such subsequence of [l] is within it (so none is dropped). *)
Definition restriction_of (p : Todo.t -> bool) (l' l : list Todo.t) : Prop :=
  sublist l' l
  /\ (forall t, In t l' <-> In t l /\ p t = true)
  /\ (forall k, sublist k l -> forallb p k = true -> sublist k l').

Definition is_active (t : Todo.t) : bool := negb (Todo.completed t).

(** The reading of "a fresh id" as an id that no task of the list has. *)
Definition adds_with_unused_id (env : Readings) (title : jsstring) (s : State) : Prop :=
  exists t,
    todos (addTodo env title s) = t :: todos s
    /\ ~ In (Todo.id t) (ids (todos s)).

(** A run in which every task that is added gets an id that no task of the
    list has at that moment. *)
Fixpoint unused_ids_run (acts : list action) (s : State) : Prop :=
  match acts with
  | [] => True
  | a :: rest =>
      match a with
      | AddTodo env title =>
          trim title = []
          \/ ~ In (uid (uid_now env) (uid_random36 env)) (ids (todos s))
      | _ => True
      end
      /\ unused_ids_run rest (step a s)
  end.

(** Two sets of readings with the same clock value and random draws that
    agree on the six digits [uid] keeps. *)
Definition first_readings : Readings :=
  {| uid_now := 1730000000000; uid_random36 := lit "0.4fz8k2p1abc";
     created_now := 1730000000000 |}.
Definition second_readings : Readings :=
  {| uid_now := 1730000000000; uid_random36 := lit "0.4fz8k2zzq07";
     created_now := 1730000000000 |}.
Definition later_readings : Readings :=
  {| uid_now := 1730000000001; uid_random36 := lit "0.4fz8k2zzq07";
     created_now := 1730000000001 |}.

Definition third_readings : Readings :=
  {| uid_now := 1730000000001; uid_random36 := lit "0.9q0aab3";
     created_now := 1730000000002 |}.

(** The id that [addTodo] gives the task it creates from its readings. *)
Definition uid_of (env : Readings) : jsstring :=
  uid (uid_now env) (uid_random36 env).

(** What [uid] keeps of the readings: the clock value, and the third to
    eighth characters of the random text. *)
Definition uid_readings (env : Readings) : Z * jsstring :=
  (uid_now env, slice 2 8 (uid_random36 env)).

(** The readings of the calls of [addTodo] in a run that add a task (those
    whose title is not blank), in the order of the calls. *)
Fixpoint created (acts : list action) : list Readings :=
  match acts with
  | [] => []
  | AddTodo env title :: rest =>
      match trim title with
      | [] => created rest
      | _ => env :: created rest
      end
  | _ :: rest => created rest
  end.

(** A list as restored from the storage, and a session on it: tasks are
    added in the same millisecond with different digits and with the same
    digits in different milliseconds, a blank title repeats earlier
    readings, a task is deleted and a completed one cleared. *)
Definition restored_state : State :=
  {| todos := [ {| Todo.id := lit "from-storage"; Todo.title := lit "old";
                   Todo.completed := false; Todo.createdAt := 1700000000000 |} ];
     filter := VStr (lit "active") |}.

Definition session_run : list action :=
  [ AddTodo first_readings (lit "a");
    ToggleTodo (lit "from-storage");
    AddTodo later_readings (lit "b");
    AddTodo second_readings (lit "   ");
    DeleteTodo (lit "m2r1bz7l-4fz8k2");
    AddTodo third_readings (lit "c");
    ToggleTodo (lit "from-storage") ].

(** A text that can follow a number literal without continuing it. *)
Definition ends_number (rest : jsstring) : Prop :=
  match rest with
  | [] => True
  | c :: _ =>
      is_digit c = false /\ c <> 0x2E%N /\ c <> 0x65%N /\ c <> 0x45%N
  end.

(** The time values of ECMAScript: whole milliseconds within 100 000 000
    days of the epoch, the range of [Date.now()]. *)
Definition is_time_value (t : Z) : Prop := Z.abs t <= 8640000000000000.

(** The JSON text of a task and of a task list. *)
Definition todo_text (t : Todo.t) : jsstring :=
  lit "{"
  ++ QuoteJSONString (lit "id") ++ lit ":" ++ QuoteJSONString (Todo.id t)
  ++ lit "," ++ QuoteJSONString (lit "title") ++ lit ":"
  ++ QuoteJSONString (Todo.title t)
  ++ lit "," ++ QuoteJSONString (lit "completed") ++ lit ":"
  ++ (if Todo.completed t then lit "true" else lit "false")
  ++ lit "," ++ QuoteJSONString (lit "createdAt") ++ lit ":"
  ++ number_toString (Todo.createdAt t) 0
  ++ lit "}".

Definition todos_text (l : list Todo.t) : jsstring :=
  lit "[" ++ join_comma (List.map todo_text l) ++ lit "]".

(** What a state cell is meant to hold after startup: the default when the
    storage cannot be reached, the key is absent, or its text does not parse
    as JSON, and the parsed value otherwise. *)
Definition restored (key : jsstring) (fallback : value) (st : Storage) : value :=
  if reachable st then
    match items st !! key with
    | None => fallback
    | Some text =>
        match JSON_parse text with
        | Return v => v
        | Throw _ => fallback
        end
    end
  else fallback.

(** A storage whose list key holds the text [null]. *)
Definition null_storage : Storage :=
  {| items := {[ STORAGE_KEY := json_lit "null" ]};
     reachable := true;
     accepts := fun _ _ => true |}.

(** A storage that holds the texts of a task list and of a filter name. *)
Definition storage_of (l : list Todo.t) (f : jsstring) : Storage :=
  {| items := <[STORAGE_FILTER_KEY := QuoteJSONString f]>
                {[ STORAGE_KEY := todos_text l ]};
     reachable := true;
     accepts := fun _ _ => true |}.

Definition sample_todos : list Todo.t :=
  [ {| Todo.id := lit "m2r1bz7l-4fz8k2";
       Todo.title := lit "say " ++ [0x22%N] ++ lit "hi" ++ [0x22%N];
       Todo.completed := false; Todo.createdAt := 1730000000001 |};
    {| Todo.id := lit "m2r1bz7k-4fz8k2"; Todo.title := [0x09; 0xD83D; 0xDE00; 0xDC00]%N;
       Todo.completed := true; Todo.createdAt := 1730000000000 |} ].

(** A state with an active and a completed task, showing the completed
    ones. *)
Definition completed_view_state : State :=
  {| todos := sample_todos; filter := VStr (lit "completed") |}.

(** The value of a digit character, and of a string of digits in a radix. *)
Definition digit_of_char (c : char16) : N :=
  (if c <? 58 then c - 48 else c - 87)%N.

Definition radix_value (radix : N) (ds : jsstring) : N :=
  fold_left (fun acc c => (radix * acc + digit_of_char c)%N) ds 0%N.

(** ** Vocabulary of the further properties *)

(** A title as [addTodo] stores it: not empty, white space at neither end. *)
Definition trimmed_title (t : Todo.t) : Prop :=
  Todo.title t <> [] /\ trim (Todo.title t) = Todo.title t.

(** The task with its flag negated, as [toggleTodo] rebuilds it. *)
Definition flipped (t : Todo.t) : Todo.t :=
  {| Todo.id := Todo.id t; Todo.title := Todo.title t;
     Todo.completed := negb (Todo.completed t);
     Todo.createdAt := Todo.createdAt t |}.

Definition sample_state : State :=
  run [AddTodo first_readings (lit " write tests ");
       AddTodo later_readings (lit "ship")] empty_state.

(** Keys in the order in which an object lists them: no key comes before
    one that the object lists earlier. *)
Fixpoint key_ordered (ks : list jsstring) : bool :=
  match ks with
  | [] => true
  | k :: r => forallb (fun k' => negb (key_before k' k)) r && key_ordered r
  end.

(** The data that JSON text holds exactly: [null], booleans, strings,
    integers that a number holds exactly, arrays of such data, and objects
    of such data, their members under distinct keys and in the order of the
    own keys of an object.  ([undefined] is not among them:
    [JSON.stringify] drops it or writes [null].) *)
Fixpoint storable (v : value) : Prop :=
  match v with
  | VUndefined => False
  | VNull | VBool _ | VStr _ => True
  | VNum m e => e = 0 /\ Z.abs m <= 9007199254740991
  | VArr l =>
      (fix all (l : list value) : Prop :=
         match l with
         | [] => True
         | x :: r => storable x /\ all r
         end) l
  | VObj ms =>
      List.NoDup (List.map fst ms)
      /\ key_ordered (List.map fst ms) = true
      /\ (fix all (ms : list (jsstring * value)) : Prop :=
            match ms with
            | [] => True
            | (k, x) :: r => storable x /\ all r
            end) ms
  end.

(** A text that starts with a code unit which is neither white space nor
    a closing bracket. *)
Definition starts_value (text : jsstring) : Prop :=
  match text with
  | [] => False
  | c :: _ => is_json_ws c = false /\ c <> 0x5D%N
  end.

Definition sample_data : value :=
  VObj [(lit "0", VStr (lit "first")); (lit "10", VNull);
        (lit "theme", VStr (lit "ocean"));
        (lit "sizes", VArr [VNum 12 0; VNum (-3) 0; VNull; VArr []]);
        (lit "007", VBool false); ([], VObj [])].

(** The text of a value inside an array. *)
Definition text_of (v : value) : jsstring :=
  match SerializeJSONProperty v with
  | Some t => t
  | None => lit "null"
  end.

Definition member_text (kv : jsstring * value) : jsstring :=
  QuoteJSONString (fst kv) ++ lit ":" ++ text_of (snd kv).

(** [v] is written as text and read back, whatever follows it. *)
Definition reads_back (v : value) : Prop :=
  SerializeJSONProperty v = Some (text_of v)
  /\ starts_value (text_of v)
  /\ forall rest, ends_number rest ->
       exists f0, forall f, (f0 <= f)%nat ->
         parse_value f (text_of v ++ rest) = Some (v, rest).

(** The storage after the first render: the cells are initialised, the
    views computed, then the two effects write the cells back, the list
    first. *)
Definition mount_effects (st : Storage) : outcome Storage :=
  c ← initial_cells st;
  _ ← render_cells c;
  st1 ← saveStorage STORAGE_KEY (cell_todos c) st;
  saveStorage STORAGE_FILTER_KEY (cell_filter c) st1.

(** A storage that takes every write. *)
Definition open_storage (m : gmap (list N) (list N)) : Storage :=
  {| items := m; reachable := true; accepts := fun _ _ => true |}.

(** ** The components *)

(** What an event handler of the view does when it fires: submit the form,
    take the text typed into the input, or run a store operation. *)
Inductive handler : Type :=
  | HSubmit
  | HInput
  | HStore (a : action).

(** The value of a JSX attribute. *)
Inductive prop : Type :=
  | PStr (s : jsstring)
  | PBool (b : bool)
  | POn (h : handler).

(** A rendered element with its React key, attributes and children, or a
    text child. *)
Inductive vnode : Type :=
  | Text (s : jsstring)
  | Element (tag : string) (key : option jsstring)
      (props : list (string * prop)) (children : list vnode).

Definition attr (name text : string) : string * prop := (name, PStr (lit text)).
Definition attr_value (name : string) (v : jsstring) : string * prop := (name, PStr v).
Definition flag (name : string) (b : bool) : string * prop := (name, PBool b).
Definition on (name : string) (h : handler) : string * prop := (name, POn h).
Definition el (tag : string) (props : list (string * prop))
    (children : list vnode) : vnode :=
  Element tag None props children.
Definition text (s : string) : vnode := Text (lit s).

(** [function FilterButton({ current, value, onChange, children })] *)
Definition FilterButton (current : value) (name : jsstring)
    (onChange : value -> handler) (children : list vnode) : vnode :=
  let active := strict_eq_string current name in
  el "button"
    [attr "type" "button";
     attr "role" "tab";
     flag "aria-selected" active;
     attr_value "className"
       (lit "chip " ++ (if active then lit "active" else empty_string));
     on "onClick" (onChange (VStr name))]
    children.

Section Components.

(** The formatting of dates by the browser's locale and the build-time
    environment variable (undefined when it is not set) are given from
    outside. *)
Variable toLocaleTimeString : Z -> jsstring.
Variable toLocaleString : Z -> jsstring.
Variable REACT_APP_NODE_ENV : option jsstring.

(** [function TodoItem({ todo, onToggle, onDelete })], with the key that
    [App] gives it. *)
Definition TodoItem (key : jsstring) (todo : Todo.t) (onToggle onDelete : handler)
  : vnode :=
  let created := Todo.createdAt todo in
  let time := toLocaleTimeString created in
  Element "li" (Some key)
    [attr_value "className"
       (lit "todo " ++ (if Todo.completed todo then lit "completed" else empty_string))]
    [el "label" [attr "className" "todo-left"]
       [el "input"
          [attr "type" "checkbox";
           flag "checked" (Todo.completed todo);
           on "onChange" onToggle;
           attr_value "aria-label"
             (json_lit "Mark '" ++ Todo.title todo ++ json_lit "' as "
              ++ (if Todo.completed todo then lit "active" else lit "completed"))]
          [];
        el "span" [attr "className" "checkmark"; attr "aria-hidden" "true"] [];
        el "span" [attr "className" "title-text"] [Text (Todo.title todo)]];
     el "div" [attr "className" "todo-right"]
       [el "span"
          [attr "className" "meta-time";
           attr_value "title" (toLocaleString created)]
          [Text time];
        el "button"
          [attr "className" "icon-btn danger";
           on "onClick" onDelete;
           attr_value "aria-label"
             (json_lit "Delete '" ++ Todo.title todo ++ json_lit "'")]
          [Text [0xD7%N]]]].

(** [function App()]: the tree it returns for the state of the store and
    of its input field. *)
Definition App (s : State) (input : jsstring) : vnode :=
  let v := useTodos s in
  let filtered := view_filtered v in
  let filter := view_filter v in
  let counts := view_counts v in
  let setFilter := fun x => HStore (SetFilter x) in
  let themeNote :=
    match REACT_APP_NODE_ENV with
    | Some env => or_string env (lit "development")
    | None => lit "development"
    end in
  el "div" [attr "className" "ocean-app"]
    [el "header" [attr "className" "ocean-header"; attr "role" "banner"]
       [el "div" [attr "className" "container"]
          [el "div" [attr "className" "brand"]
             [el "div" [attr "className" "logo"; attr "aria-hidden" "true"]
                [Text [0x2714%N]];
              el "div" [attr "className" "titles"]
                [el "h1" [attr "className" "title"] [text "Ocean Todos"];
                 el "p" [attr "className" "subtitle"]
                   [text "Lightweight, fast, and elegant task tracking"]]]]];
     el "main" [attr "className" "ocean-main"; attr "role" "main"]
       [el "div" [attr "className" "container"]
          [el "section"
             [attr "className" "todo-card";
              attr "aria-label" "Todo input and list"]
             [el "form" [attr "className" "todo-input-row"; on "onSubmit" HSubmit]
                [el "input"
                   [attr "type" "text";
                    attr "className" "todo-input";
                    attr "placeholder" "What needs to be done?";
                    attr "aria-label" "Add a new todo";
                    attr_value "value" input;
                    on "onChange" HInput]
                   [];
                 el "button"
                   [attr "type" "submit";
                    attr "className" "btn primary";
                    attr "aria-label" "Add todo"]
                   [text "Add"]];
              el "div" [attr "className" "controls"]
                [el "div"
                   [attr "className" "filters";
                    attr "role" "tablist";
                    attr "aria-label" "Filter todos"]
                   [FilterButton filter (lit "all") setFilter [text "All"];
                    FilterButton filter (lit "active") setFilter [text "Active"];
                    FilterButton filter (lit "completed") setFilter
                      [text "Completed"]];
                 el "div" [attr "className" "meta"]
                   (el "span" [attr "className" "count"]
                      [Text (int_toString 10 (Counts.active counts));
                       text " active"]
                    :: (if 0 <? Counts.completed counts
                        then [el "button"
                                [attr "className" "btn ghost danger";
                                 on "onClick" (HStore ClearCompleted);
                                 attr "aria-label" "Clear completed todos"]
                                [text "Clear completed"]]
                        else []))];
              el "ul" [attr "className" "todo-list"]
                ((if (length filtered =? 0)%nat
                  then [el "li" [attr "className" "empty"]
                          [text "No todos yet. Add one above to get started."]]
                  else [])
                 ++ List.map (fun todo =>
                      TodoItem (Todo.id todo) todo
                        (HStore (ToggleTodo (Todo.id todo)))
                        (HStore (DeleteTodo (Todo.id todo))))
                    filtered)];
           el "footer" [attr "className" "footer-note"; attr "role" "contentinfo"]
             [el "span" [attr "className" "env"] [text "Env: "; Text themeNote];
              el "span" [attr "className" "hint"]
                [text "Data is stored locally in your browser."]]]]].

End Components.

(** The state of [App]: the store and the text of the input field. *)
Record AppState : Type := mkAppState {
  store : State;
  input : jsstring
}.

(** [onSubmit]: add the typed title, then empty the field. *)
Definition onSubmit (env : Readings) (a : AppState) : AppState :=
  {| store := addTodo env (input a) (store a); input := empty_string |}.

(** The state after a handler fires; [typed] is the text of the input
    element for its change event. *)
Definition fire (h : handler) (env : Readings) (typed : jsstring)
    (a : AppState) : AppState :=
  match h with
  | HSubmit => onSubmit env a
  | HInput => {| store := store a; input := typed |}
  | HStore act => {| store := step act (store a); input := input a |}
  end.

(** The nodes of a tree in document order. *)
Fixpoint nodes (n : vnode) : list vnode :=
  match n with
  | Text _ => [n]
  | Element _ _ _ children => n :: flat_map nodes children
  end.

Definition own_handlers (n : vnode) : list handler :=
  match n with
  | Text _ => []
  | Element _ _ props _ =>
      flat_map (fun p => match snd p with POn h => [h] | _ => [] end) props
  end.

Definition own_key (n : vnode) : list jsstring :=
  match n with
  | Element _ (Some k) _ _ => [k]
  | _ => []
  end.

Definition handlers_of (n : vnode) : list handler := flat_map own_handlers (nodes n).
Definition keys_of (n : vnode) : list jsstring := flat_map own_key (nodes n).

Fixpoint get_prop (name : string) (props : list (string * prop)) : option prop :=
  match props with
  | [] => None
  | (n, p) :: rest => if String.eqb n name then Some p else get_prop name rest
  end.

(** The buttons of the filter row: the elements with [role="tab"], each
    with its [aria-selected] flag and the handler of its click. *)
Definition own_tab (n : vnode) : list (bool * handler) :=
  match n with
  | Element _ _ props _ =>
      match get_prop "role" props, get_prop "aria-selected" props,
            get_prop "onClick" props with
      | Some (PStr role), Some (PBool selected), Some (POn h) =>
          if jsstring_eqb role (lit "tab") then [(selected, h)] else []
      | _, _, _ => []
      end
  | Text _ => []
  end.

Definition tabs_of (n : vnode) : list (bool * handler) := flat_map own_tab (nodes n).

Definition own_class (n : vnode) : list jsstring :=
  match n with
  | Element _ _ props _ =>
      match get_prop "className" props with
      | Some (PStr c) => [c]
      | _ => []
      end
  | Text _ => []
  end.

(** The class names of a tree, in document order. *)
Definition classes_of (n : vnode) : list jsstring := flat_map own_class (nodes n).

(** The [value] attributes of a tree: what its input fields show. *)
Definition own_value (n : vnode) : list jsstring :=
  match n with
  | Element _ _ props _ =>
      match get_prop "value" props with
      | Some (PStr v) => [v]
      | _ => []
      end
  | Text _ => []
  end.

Definition values_of (n : vnode) : list jsstring := flat_map own_value (nodes n).
(** * Properties *)

(** ** Strings *)

Lemma jsstring_eqb_eq (a b : jsstring) : jsstring_eqb a b = true <-> a = b.
Proof.
  revert b. induction a as [|x a IH]; intros [|y b]; simpl; split; try congruence.
  - intros H. apply andb_true_iff in H as [Hx Ha].
    apply N.eqb_eq in Hx. apply IH in Ha. congruence.
  - intros H. injection H as -> ->. rewrite N.eqb_refl. simpl. now apply IH.
Qed.

Lemma jsstring_eqb_refl (a : jsstring) : jsstring_eqb a a = true.
Proof. now apply jsstring_eqb_eq. Qed.

Lemma jsstring_eqb_neq (a b : jsstring) : jsstring_eqb a b = false <-> a <> b.
Proof.
  split.
  - intros H E. apply jsstring_eqb_eq in E. congruence.
  - intros H. destruct (jsstring_eqb a b) eqn:E; [|reflexivity].
    apply jsstring_eqb_eq in E. contradiction.
Qed.

Lemma trim_start_split (s : jsstring) :
  exists pre, s = pre ++ trim_start s
              /\ forallb is_white_space pre = true
              /\ starts_clean (trim_start s).
Proof.
  induction s as [|c r (pre & E & Hpre & Hc)]; simpl.
  - exists []. auto.
  - destruct (is_white_space c) eqn:W.
    + exists (c :: pre). simpl. rewrite W, Hpre. split; [congruence | auto].
    + exists []. simpl. auto.
Qed.

Lemma trim_start_clean (s : jsstring) : starts_clean s -> trim_start s = s.
Proof. destruct s as [|c r]; simpl; [reflexivity|]. now intros ->. Qed.

(** [trim] removes a run of white space at each end and nothing else, and
    what it returns has white space at neither end. *)
Lemma trim_split (s : jsstring) :
  exists pre post,
    s = pre ++ trim s ++ post
    /\ forallb is_white_space pre = true
    /\ forallb is_white_space post = true
    /\ starts_clean (trim s)
    /\ starts_clean (rev (trim s)).
Proof.
  unfold trim, trim_end.
  destruct (trim_start_split s) as (pre & E1 & Hpre & Hc1).
  set (m := trim_start s) in *.
  destruct (trim_start_split (rev m)) as (tsop & E2 & Hpost & Hc2).
  set (k := trim_start (rev m)) in *.
  exists pre, (rev tsop).
  assert (Em : m = rev k ++ rev tsop).
  { rewrite <- rev_app_distr, <- E2. symmetry. apply rev_involutive. }
  repeat split.
  - rewrite <- Em. exact E1.
  - exact Hpre.
  - rewrite forallb_forall in *. intros x Hx. apply Hpost. now apply in_rev.
  - destruct (rev k) as [|c r] eqn:Ek; [exact I|].
    rewrite Em in Hc1. simpl in Hc1. exact Hc1.
  - rewrite rev_involutive. exact Hc2.
Qed.

Lemma trim_idempotent (s : jsstring) : trim (trim s) = trim s.
Proof.
  destruct (trim_split s) as (_ & _ & _ & _ & _ & H1 & H2).
  unfold trim at 1. rewrite (trim_start_clean _ H1).
  unfold trim_end. rewrite (trim_start_clean _ H2). apply rev_involutive.
Qed.

Lemma or_string_empty (a : jsstring) : or_string a empty_string = a.
Proof. now destruct a. Qed.

Example trim_buy_milk : trim (lit "  Buy milk  ") = lit "Buy milk".
Proof. reflexivity. Qed.

Example trim_blank : trim empty_string = [] /\ trim (lit "   ") = [].
Proof. split; reflexivity. Qed.

(** ** Lists *)

Lemma filter_sublist {A} (p : A -> bool) (l : list A) :
  sublist (List.filter p l) l.
Proof.
  induction l as [|x l IH]; simpl; [constructor|].
  destruct (p x); now constructor.
Qed.

Lemma sublist_filter_mono {A} (p : A -> bool) (k l : list A) :
  sublist k l -> sublist (List.filter p k) (List.filter p l).
Proof.
  induction 1 as [|x k l _ IH|x k l _ IH]; simpl.
  - constructor.
  - destruct (p x); [now constructor | exact IH].
  - destruct (p x); [now constructor | exact IH].
Qed.

Lemma filter_all {A} (p : A -> bool) (l : list A) :
  forallb p l = true -> List.filter p l = l.
Proof.
  induction l as [|x l IH]; simpl; [reflexivity|].
  intros H. apply andb_true_iff in H as [-> H]. now rewrite IH.
Qed.

Lemma filter_restriction (p : Todo.t -> bool) (l : list Todo.t) :
  restriction_of p (List.filter p l) l.
Proof.
  split; [apply filter_sublist|split].
  - intros t. apply filter_In.
  - intros k Hk Hp. rewrite <- (filter_all p k Hp). now apply sublist_filter_mono.
Qed.

(** The three conditions of [restriction_of] determine the list. *)
Lemma restriction_unique (p : Todo.t -> bool) (l' l : list Todo.t) :
  restriction_of p l' l -> l' = List.filter p l.
Proof.
  intros (Hsub & Hin & Hmax).
  apply (anti_symm sublist).
  - assert (Hp : forallb p l' = true).
    { apply forallb_forall. intros t Ht. now apply Hin in Ht. }
    rewrite <- (filter_all p l' Hp). now apply sublist_filter_mono.
  - apply Hmax; [apply filter_sublist|].
    apply forallb_forall. intros t Ht. now apply filter_In in Ht.
Qed.

Lemma filter_length_completed (l : list Todo.t) :
  length (List.filter is_active l) = (length l - count_completed l)%nat
  /\ (count_completed l <= length l)%nat
  /\ length (List.filter Todo.completed l) = count_completed l.
Proof.
  unfold is_active.
  induction l as [|t l (IH1 & IH2 & IH3)]; simpl; [auto|].
  destruct (Todo.completed t); simpl; rewrite ?IH1, ?IH3; repeat split; lia.
Qed.

(** ** The mutations *)

Lemma state_eta (s : State) : {| todos := todos s; filter := filter s |} = s.
Proof. now destruct s. Qed.

Lemma addTodo_cases (env : Readings) (title : jsstring) (s : State) :
  (trim title = [] /\ addTodo env title s = s)
  \/ (trim title <> []
      /\ addTodo env title s =
         {| todos :=
              {| Todo.id := uid (uid_now env) (uid_random36 env);
                 Todo.title := trim title;
                 Todo.completed := false;
                 Todo.createdAt := created_now env |} :: todos s;
            filter := filter s |}).
Proof.
  unfold addTodo. rewrite or_string_empty.
  destruct (trim title) as [|c r]; [left | right]; split;
    congruence || reflexivity.
Qed.

(** C1 (as amended): [addTodo] trims the title; an empty result leaves the
    state as it is; any other result puts exactly one new task in front of
    the list, with the trimmed title, [completed = false], the id that
    [uid()] builds from the clock and the random digits, and the clock
    reading as [createdAt]; the tasks that were there follow unchanged, in
    their order, and the filter is untouched. *)
Theorem addTodo_spec (env : Readings) (title : jsstring) (s : State) :
  (trim title = [] -> addTodo env title s = s)
  /\ (trim title <> [] ->
      addTodo env title s =
      {| todos :=
           {| Todo.id := uid (uid_now env) (uid_random36 env);
              Todo.title := trim title;
              Todo.completed := false;
              Todo.createdAt := created_now env |} :: todos s;
         filter := filter s |}).
Proof.
  destruct (addTodo_cases env title s) as [[E H]|[E H]]; split; intros E';
    solve [exact H | contradiction].
Qed.

Example addTodo_buy_milk (env : Readings) (s : State) :
  exists t, todos (addTodo env (lit "  Buy milk  ") s) = t :: todos s
            /\ Todo.title t = lit "Buy milk" /\ Todo.completed t = false.
Proof. eexists. split; [reflexivity|]. split; reflexivity. Qed.

Example addTodo_blank (env : Readings) (s : State) :
  addTodo env empty_string s = s /\ addTodo env (lit "   ") s = s.
Proof. split; reflexivity. Qed.

Lemma toggle_task_twice (id : jsstring) (t : Todo.t) :
  let flip t :=
    if jsstring_eqb (Todo.id t) id
    then {| Todo.id := Todo.id t; Todo.title := Todo.title t;
            Todo.completed := negb (Todo.completed t);
            Todo.createdAt := Todo.createdAt t |}
    else t in
  flip (flip t) = t.
Proof.
  simpl. destruct (jsstring_eqb (Todo.id t) id) eqn:E; simpl; rewrite E.
  - rewrite negb_involutive. now destruct t.
  - reflexivity.
Qed.

(** C2: [toggleTodo] keeps the length and the order of the list and every
    task's id, title and timestamp; the task at each position has its
    [completed] flag negated when its id is the given id and kept when it
    is another id; two toggles with the same id give the state back; an id
    that no task has leaves the state as it is. *)
Theorem toggleTodo_spec (id : jsstring) (s : State) :
  filter (toggleTodo id s) = filter s
  /\ length (todos (toggleTodo id s)) = length (todos s)
  /\ (forall i t, nth_error (todos s) i = Some t ->
        exists t',
          nth_error (todos (toggleTodo id s)) i = Some t'
          /\ Todo.id t' = Todo.id t
          /\ Todo.title t' = Todo.title t
          /\ Todo.createdAt t' = Todo.createdAt t
          /\ (Todo.id t = id -> Todo.completed t' = negb (Todo.completed t))
          /\ (Todo.id t <> id -> Todo.completed t' = Todo.completed t))
  /\ toggleTodo id (toggleTodo id s) = s
  /\ ((forall t, In t (todos s) -> Todo.id t <> id) -> toggleTodo id s = s).
Proof.
  unfold toggleTodo, setTodos. simpl.
  split; [reflexivity|]. split; [apply length_map|]. split; [|split].
  - intros i t Hi. rewrite nth_error_map, Hi. simpl.
    eexists. split; [reflexivity|].
    destruct (jsstring_eqb (Todo.id t) id) eqn:E; simpl.
    + apply jsstring_eqb_eq in E. repeat split; auto. intros Hne. contradiction.
    + apply jsstring_eqb_neq in E. repeat split; auto. intros Heq. contradiction.
  - rewrite List.map_map.
    rewrite (map_ext _ (fun t => t)) by (intros t; apply (toggle_task_twice id t)).
    rewrite List.map_id. apply state_eta.
  - intros Hno. rewrite <- (state_eta s) at 3. f_equal.
    transitivity (List.map (fun t : Todo.t => t) (todos s)); [|apply List.map_id].
    apply map_ext_in.
    intros t Ht. apply Hno in Ht. apply jsstring_eqb_neq in Ht. now rewrite Ht.
Qed.

(** A task with the given id between two others: the toggle flips it and
    only it. *)
Example toggleTodo_middle (a b c : Todo.t) (f : value) :
  Todo.id a <> Todo.id b -> Todo.id c <> Todo.id b ->
  toggleTodo (Todo.id b) {| todos := [a; b; c]; filter := f |}
  = {| todos := [a; flipped b; c]; filter := f |}.
Proof.
  intros Ha Hc. apply jsstring_eqb_neq in Ha, Hc.
  unfold toggleTodo, setTodos. cbn [todos filter List.map].
  now rewrite Ha, Hc, jsstring_eqb_refl.
Qed.

Lemma deleteTodo_only (t : Todo.t) (f : value) :
  deleteTodo (Todo.id t) {| todos := [t]; filter := f |}
  = {| todos := []; filter := f |}.
Proof.
  unfold deleteTodo, setTodos. simpl. now rewrite jsstring_eqb_refl.
Qed.

(** [deleteTodo] removes exactly the tasks with the given id. *)
Lemma deleteTodo_spec (id : jsstring) (s : State) :
  filter (deleteTodo id s) = filter s
  /\ restriction_of (fun t => negb (jsstring_eqb (Todo.id t) id))
       (todos (deleteTodo id s)) (todos s).
Proof. split; [reflexivity | apply filter_restriction]. Qed.

(** C3: [clearCompleted] leaves the restriction of the list to the tasks
    with [completed = false]: a subsequence of the list (order kept, tasks
    unmodified) that holds exactly its tasks that are not done.  From
    [[A(done); B(active)]] it leaves [[B]], whose counts are 1, 1 and 0. *)
Theorem clearCompleted_spec (s : State) :
  restriction_of is_active (todos (clearCompleted s)) (todos s)
  /\ filter (clearCompleted s) = filter s
  /\ (forall t, In t (todos s) -> Todo.completed t = true ->
        ~ In t (todos (clearCompleted s)))
  /\ (forall A B f,
        Todo.completed A = true -> Todo.completed B = false ->
        clearCompleted {| todos := [A; B]; filter := f |}
        = {| todos := [B]; filter := f |}
        /\ counts {| todos := [B]; filter := f |}
           = {| Counts.total := 1; Counts.active := 1; Counts.completed := 0 |}).
Proof.
  split; [apply filter_restriction|]. split; [reflexivity|]. split.
  - intros t _ Hdone Hin. apply filter_In in Hin as [_ Hact].
    rewrite Hdone in Hact. discriminate.
  - intros A B f HA HB. unfold clearCompleted, setTodos, counts. simpl.
    rewrite HA, HB. simpl. split; reflexivity.
Qed.

(** ** The derived views *)

(** C4: for a list of N tasks of which K are done, [counts] gives
    [total = N], [active = N - K] and [completed = K], so
    [active + completed = total]; computing it hands back the list and the
    filter as they were. *)
Theorem counts_spec (s : State) :
  let N := Z.of_nat (length (todos s)) in
  let K := Z.of_nat (count_completed (todos s)) in
  Counts.total (counts s) = N
  /\ Counts.active (counts s) = N - K
  /\ Counts.completed (counts s) = K
  /\ Counts.active (counts s) + Counts.completed (counts s) = Counts.total (counts s)
  /\ 0 <= K <= N
  /\ view_counts (useTodos s) = counts s
  /\ view_todos (useTodos s) = todos s
  /\ view_filter (useTodos s) = filter s.
Proof.
  destruct (filter_length_completed (todos s)) as (Ha & Hle & _).
  cbv zeta.
  assert (Hact : Counts.active (counts s)
                 = Z.of_nat (length (todos s)) - Z.of_nat (count_completed (todos s))).
  { unfold counts, is_active in *. cbn -[Z.of_nat]. rewrite Ha. lia. }
  assert (Hdone : Counts.completed (counts s)
                  = Z.of_nat (length (todos s)) - Counts.active (counts s))
    by reflexivity.
  assert (Htot : Counts.total (counts s) = Z.of_nat (length (todos s)))
    by reflexivity.
  rewrite Hdone, Htot, Hact. repeat split; try reflexivity; lia.
Qed.

Lemma strict_eq_string_true (v : value) (x : jsstring) :
  strict_eq_string v x = true <-> v = VStr x.
Proof.
  destruct v; simpl; split; try congruence.
  - intros H. apply jsstring_eqb_eq in H. congruence.
  - intros H. injection H as ->. apply jsstring_eqb_refl.
Qed.

Lemma strict_eq_string_false (v : value) (x : jsstring) :
  strict_eq_string v x = false <-> v <> VStr x.
Proof.
  rewrite <- strict_eq_string_true. destruct (strict_eq_string v x); split; congruence.
Qed.

(** C5: under the filter ["all"] the view is the whole list, under
    ["active"] its restriction to the tasks with [completed = false], under
    ["completed"] its restriction to those with [completed = true], each in
    list order; the state is handed back as it was; an empty list gives an
    empty view under the three filters, as after deleting the only task. *)
Theorem filtered_spec (s : State) :
  (filter s = VStr (lit "all") -> filtered s = todos s)
  /\ (filter s = VStr (lit "active") ->
      restriction_of is_active (filtered s) (todos s))
  /\ (filter s = VStr (lit "completed") ->
      restriction_of Todo.completed (filtered s) (todos s))
  /\ view_filtered (useTodos s) = filtered s
  /\ view_todos (useTodos s) = todos s
  /\ view_filter (useTodos s) = filter s
  /\ (forall f, f = lit "all" \/ f = lit "active" \/ f = lit "completed" ->
        filtered {| todos := []; filter := VStr f |} = [])
  /\ (forall t f, f = lit "all" \/ f = lit "active" \/ f = lit "completed" ->
        filtered (deleteTodo (Todo.id t) {| todos := [t]; filter := VStr f |}) = []).
Proof.
  unfold filtered.
  split; [intros ->; reflexivity|].
  split; [intros ->; apply filter_restriction|].
  split; [intros ->; apply (filter_restriction Todo.completed)|].
  do 3 (split; [reflexivity|]).
  split.
  - intros f [-> | [-> | ->]]; reflexivity.
  - intros t f H. rewrite deleteTodo_only.
    destruct H as [-> | [-> | ->]]; reflexivity.
Qed.

(** C9: [setFilter] stores any value as it is and leaves the list alone;
    under every filter value other than the strings ["active"] and
    ["completed"] the view is the whole list in order, the same as under
    ["all"]. *)
Theorem filtered_other_values (v : value) (s : State)
    (Hactive : v <> VStr (lit "active"))
    (Hcompleted : v <> VStr (lit "completed")) :
  filter (setFilter v s) = v
  /\ todos (setFilter v s) = todos s
  /\ filtered (setFilter v s) = todos s
  /\ filtered (setFilter v s) = filtered (setFilter (VStr (lit "all")) s).
Proof.
  apply strict_eq_string_false in Hactive, Hcompleted.
  unfold filtered, setFilter. simpl. rewrite Hactive, Hcompleted.
  repeat split; reflexivity.
Qed.

Lemma filtered_other_values_witness :
  filter (setFilter (VStr (lit "done")) completed_view_state) = VStr (lit "done")
  /\ todos (setFilter (VStr (lit "done")) completed_view_state) = sample_todos
  /\ filtered (setFilter (VStr (lit "done")) completed_view_state) = sample_todos
  /\ filtered (setFilter (VStr (lit "done")) completed_view_state)
     = filtered (setFilter (VStr (lit "all")) completed_view_state).
Proof.
  apply (filtered_other_values (VStr (lit "done")) completed_view_state);
    intros H; vm_compute in H; discriminate H.
Defined.

(** On that state the two remaining filter names do select: one task of
    the two under each. *)
Example filtered_names_select :
  length (filtered completed_view_state) = 1%nat
  /\ length (filtered (setFilter (VStr (lit "active")) completed_view_state)) = 1%nat
  /\ length (filtered (setFilter (VNum 5 0) completed_view_state)) = 2%nat.
Proof. repeat split. Qed.

(** C10: the list and the filter are separate cells: every list mutation
    leaves the filter as it was, [setFilter] leaves the list as it was, and
    the views hand both back as they were. *)
Theorem cells_independent (a : action) (s : State) :
  match a with
  | SetFilter v => todos (step a s) = todos s /\ filter (step a s) = v
  | _ => filter (step a s) = filter s
  end
  /\ view_todos (useTodos s) = todos s
  /\ view_filter (useTodos s) = filter s
  /\ view_filtered (useTodos s) = filtered s
  /\ view_counts (useTodos s) = counts s.
Proof.
  split; [|repeat split].
  destruct a as [env title| | | |]; simpl; try reflexivity.
  - unfold addTodo. destruct (trim _); reflexivity.
  - split; reflexivity.
Qed.

(** ** Ids *)

Example uid_sample :
  uid 1730000000000 (lit "0.4fz8k2p1abc") = lit "m2r1bz7k-4fz8k2".
Proof. reflexivity. Qed.

(** C1, the claim as stated: the id of the added task need not be new.  A
    second [addTodo] in the same millisecond whose random draw shares its
    first six digits gives the id of the task added before. *)
Lemma addTodo_id_in_use :
  trim (lit "b") <> []
  /\ ~ adds_with_unused_id second_readings (lit "b")
         (addTodo first_readings (lit "a") empty_state).
Proof.
  split; [discriminate|].
  intros (t & Ht & Hnew). injection Ht as <-. apply Hnew. left. reflexivity.
Qed.

Lemma ids_toggleTodo (id : jsstring) (s : State) :
  ids (todos (toggleTodo id s)) = ids (todos s).
Proof.
  unfold ids, toggleTodo, setTodos. simpl. rewrite List.map_map.
  apply map_ext. intros t. now destruct (jsstring_eqb (Todo.id t) id).
Qed.

Lemma ids_filter_sublist (p : Todo.t -> bool) (l : list Todo.t) :
  sublist (ids (List.filter p l)) (ids l).
Proof.
  induction l as [|t l IH]; simpl; [constructor|].
  destruct (p t); simpl; now constructor.
Qed.

(** One step keeps the ids pairwise distinct, provided an added task gets
    an id that is not in the list. *)
Lemma step_ids_distinct (a : action) (s : State) :
  NoDup (ids (todos s)) ->
  match a with
  | AddTodo env title =>
      trim title = []
      \/ ~ In (uid (uid_now env) (uid_random36 env)) (ids (todos s))
  | _ => True
  end ->
  NoDup (ids (todos (step a s))).
Proof.
  intros Hnd Ha. destruct a as [env title|id|id| |v]; cbn [step].
  - destruct (addTodo_cases env title s) as [[E ->]|[E ->]]; [exact Hnd|].
    simpl. destruct Ha as [Ha|Ha]; [contradiction|].
    constructor; [now rewrite list_elem_of_In | exact Hnd].
  - now rewrite ids_toggleTodo.
  - exact (sublist_NoDup _ _ Hnd (ids_filter_sublist _ _)).
  - exact (sublist_NoDup _ _ Hnd (ids_filter_sublist _ _)).
  - exact Hnd.
Qed.

(** A list without duplicate ids stays so along a run in which every added
    task gets an id that is not in the list. *)
Lemma run_ids_distinct (acts : list action) (s : State) :
  NoDup (ids (todos s)) ->
  unused_ids_run acts s ->
  NoDup (ids (todos (run acts s))).
Proof.
  revert s. induction acts as [|a acts IH]; intros s Hnd Hrun; simpl in *.
  - exact Hnd.
  - destruct Hrun as [Ha Hrest]. apply IH; [|exact Hrest].
    apply step_ids_distinct; [exact Hnd|]. destruct a; auto.
Qed.

(** C8, the claim as stated: two tasks added in the same millisecond with
    random draws that share their first six digits have the same id. *)
Lemma ids_collide :
  ids (todos (run [AddTodo first_readings (lit "a");
                   AddTodo second_readings (lit "b")] empty_state))
  = [lit "m2r1bz7k-4fz8k2"; lit "m2r1bz7k-4fz8k2"]
  /\ ~ NoDup (ids (todos (run [AddTodo first_readings (lit "a");
                               AddTodo second_readings (lit "b")] empty_state))).
Proof.
  split; [reflexivity|].
  intros H. inversion H as [|x l Hx _]. apply Hx. left.
Qed.

(** ** Decimal digits *)

Ltac divlia := zify; Z.to_euclidean_division_equations; lia.

Lemma size_nat_bound (n : N) : (n < 2 ^ N.of_nat (N.size_nat n))%N.
Proof.
  destruct n as [|p]; [reflexivity|]. simpl.
  induction p as [p IH|p IH|]; simpl Pos.size_nat;
    rewrite ?Nat2N.inj_succ, ?N.pow_succ_r'; lia.
Qed.

Lemma digits_value_snoc (ds : jsstring) (c : char16) :
  digits_value (ds ++ [c]) = (10 * digits_value ds + (c - 48))%N.
Proof. unfold digits_value. now rewrite fold_left_app. Qed.

Lemma digit_char_decimal (d : N) :
  (d < 10)%N ->
  is_digit (digit_char d) = true /\ (digit_char d - 48 = d)%N
  /\ (1 <= d -> digit_char d <> 48)%N.
Proof.
  intros Hd. unfold digit_char, is_digit.
  destruct (N.ltb_spec d 10) as [_|]; [|lia].
  repeat split; [|lia|lia].
  apply andb_true_iff. split; apply N.leb_le; lia.
Qed.

(** With enough fuel the digits denote the number. *)
Lemma digits_fuel_value (f : nat) (n : N) :
  (n < 2 ^ N.of_nat f)%N -> digits_value (digits_fuel 10 f n) = n.
Proof.
  revert n. induction f as [|f IH]; intros n Hn.
  - simpl in *. assert (n = 0)%N as -> by lia. reflexivity.
  - cbn [digits_fuel]. destruct (N.ltb_spec n 10) as [Hlt|Hge].
    + unfold digits_value. simpl.
      destruct (digit_char_decimal n Hlt) as (_ & E & _). lia.
    + rewrite digits_value_snoc, IH.
      * destruct (digit_char_decimal (n mod 10)) as (_ & E & _); [divlia|].
        rewrite E. divlia.
      * rewrite Nat2N.inj_succ, N.pow_succ_r' in Hn.
        assert (0 < 2 ^ N.of_nat f)%N by (apply N.neq_0_lt_0, N.pow_nonzero; lia).
        divlia.
Qed.

(** The digits are decimal digits, the first one not a zero unless the
    number is zero. *)
Lemma digits_fuel_shape (f : nat) (n : N) :
  exists c r,
    digits_fuel 10 f n = c :: r
    /\ ((n < 2 ^ N.of_nat f)%N ->
        is_digit c = true /\ forallb is_digit r = true
        /\ ((1 <= n)%N -> c <> 48%N)).
Proof.
  revert n. induction f as [|f IH]; intros n.
  - exists (digit_char n), []. split; [reflexivity|]. simpl. intros Hn.
    assert (n = 0)%N as -> by lia. repeat split; lia.
  - cbn [digits_fuel]. destruct (N.ltb_spec n 10) as [Hlt|Hge].
    + exists (digit_char n), [].
      destruct (digit_char_decimal n Hlt) as (D & _ & Z0). repeat split; auto.
    + destruct (IH (n / 10)%N) as (c & r & E & Hs).
      exists c, (r ++ [digit_char (n mod 10)]).
      rewrite E. split; [reflexivity|].
      intros Hn. rewrite Nat2N.inj_succ, N.pow_succ_r' in Hn.
      assert (0 < 2 ^ N.of_nat f)%N by (apply N.neq_0_lt_0, N.pow_nonzero; lia).
      destruct Hs as (Hc & Hr & Hz); [divlia|].
      destruct (digit_char_decimal (n mod 10)) as (D & _ & _); [divlia|].
      repeat split.
      * exact Hc.
      * rewrite forallb_app, Hr. simpl. now rewrite D.
      * intros _. apply Hz. divlia.
Qed.

Lemma digits_fuel_length (f : nat) (n : N) (k : nat) :
  (n < 10 ^ N.of_nat (S k))%N -> (length (digits_fuel 10 f n) <= S k)%nat.
Proof.
  revert n k. induction f as [|f IH]; intros n k Hn; [simpl; lia|].
  cbn [digits_fuel]. destruct (N.ltb_spec n 10) as [Hlt|Hge]; [simpl; lia|].
  rewrite length_app. simpl.
  destruct k as [|k].
  - change (10 ^ N.of_nat 1)%N with 10%N in Hn. lia.
  - specialize (IH (n / 10)%N k).
    rewrite (Nat2N.inj_succ (S k)), N.pow_succ_r' in Hn.
    assert (length (digits_fuel 10 f (n / 10)) <= S k)%nat; [|lia].
    apply IH.
    assert (0 < 10 ^ N.of_nat (S k))%N by (apply N.neq_0_lt_0, N.pow_nonzero; lia).
    divlia.
Qed.

Lemma digits_decimal (n : N) :
  exists c r,
    digits 10 n = c :: r
    /\ is_digit c = true /\ forallb is_digit r = true
    /\ ((1 <= n)%N -> c <> 48%N)
    /\ digits_value (digits 10 n) = n.
Proof.
  unfold digits.
  destruct (digits_fuel_shape (N.size_nat n) n) as (c & r & E & H).
  destruct (H (size_nat_bound n)) as (Hc & Hr & Hz).
  exists c, r. repeat split; auto.
  apply digits_fuel_value, size_nat_bound.
Qed.

Lemma take_digits_app (ds rest : jsstring) :
  forallb is_digit ds = true ->
  match rest with [] => True | c :: _ => is_digit c = false end ->
  take_digits (ds ++ rest) = (ds, rest).
Proof.
  intros Hds Hrest. induction ds as [|d ds IH]; simpl in *.
  - destruct rest as [|c r]; [reflexivity|]. simpl. now rewrite Hrest.
  - apply andb_true_iff in Hds as [-> Hds]. now rewrite (IH Hds).
Qed.

Lemma drop_zeros_split (s : jsstring) :
  s = repeat 48%N (length s - length (drop_zeros s)) ++ drop_zeros s
  /\ (length (drop_zeros s) <= length s)%nat.
Proof.
  induction s as [|c r [IH Hle]]; simpl; [auto|].
  destruct (N.eqb_spec c 48) as [->|_]; simpl.
  - split; [|lia].
    replace (S (length r) - length (drop_zeros r))%nat
      with (S (length r - length (drop_zeros r))) by lia.
    simpl. now rewrite <- IH.
  - rewrite Nat.sub_diag. auto.
Qed.

Lemma strip_trailing_zeros_split (s : jsstring) :
  strip_trailing_zeros s
    ++ repeat 48%N (length s - length (strip_trailing_zeros s)) = s
  /\ (length (strip_trailing_zeros s) <= length s)%nat.
Proof.
  unfold strip_trailing_zeros.
  destruct (drop_zeros_split (rev s)) as [E Hle].
  rewrite length_rev in *. split; [|exact Hle].
  apply (f_equal (@rev char16)) in E.
  rewrite rev_involutive, rev_app_distr, rev_repeat in E. now symmetry.
Qed.

(** ** Numbers through [JSON.stringify] and [JSON.parse] *)

(** Replace the literals of the goal by their code units. *)
Ltac eval_lits :=
  repeat match goal with
  | |- context [lit ?s] =>
      let v := eval vm_compute in (lit s) in change (lit s) with v
  end.

Lemma number_toString_integer (m : Z) :
  m <> 0 -> Z.abs m < 10 ^ 21 ->
  number_toString m 0
  = (if m <? 0 then lit "-" else []) ++ digits 10 (Z.abs_N m).
Proof.
  intros Hm Hlt. unfold number_toString.
  destruct (Z.eqb_spec m 0) as [|_]; [contradiction|].
  f_equal.
  set (ds := digits 10 (Z.abs_N m)).
  destruct (strip_trailing_zeros_split ds) as [E Hle].
  assert (Hlen : (length ds <= 21)%nat).
  { apply digits_fuel_length. change (10 ^ N.of_nat 21)%N with (Z.to_N (10 ^ 21)). lia. }
  replace ((Z.of_nat (length (strip_trailing_zeros ds)) <=? Z.of_nat (length ds) + 0)
           && (Z.of_nat (length ds) + 0 <=? 21)) with true.
  2:{ symmetry. apply andb_true_iff. split; apply Z.leb_le; lia. }
  replace (Z.to_nat (Z.of_nat (length ds) + 0 - Z.of_nat (length (strip_trailing_zeros ds))))
    with (length ds - length (strip_trailing_zeros ds))%nat by lia.
  exact E.
Qed.

Lemma fraction_part_none (rest : jsstring) :
  ends_number rest -> fraction_part rest = Some ([], rest).
Proof.
  destruct rest as [|c r]; [reflexivity|]. intros (_ & H & _). simpl.
  apply N.eqb_neq in H. now rewrite H.
Qed.

Lemma exponent_part_none (rest : jsstring) :
  ends_number rest -> exponent_part rest = Some (0, rest).
Proof.
  destruct rest as [|c r]; [reflexivity|]. intros (_ & _ & H1 & H2). simpl.
  apply N.eqb_neq in H1, H2. now rewrite H1, H2.
Qed.

Lemma ends_number_not_digit (rest : jsstring) :
  ends_number rest ->
  match rest with [] => True | c :: _ => is_digit c = false end.
Proof. destruct rest; [auto|]. now intros (H & _). Qed.

Lemma integer_part_digits (n : N) (rest : jsstring) :
  ends_number rest ->
  integer_part (digits 10 n ++ rest) = Some (digits 10 n, rest).
Proof.
  intros Hrest.
  destruct (digits_decimal n) as (c & r & E & Hc & Hr & Hz & _).
  rewrite E. simpl. destruct (N.eqb_spec c 48) as [->|Hne].
  - destruct (N.le_gt_cases 1 n) as [H1|H0]; [now apply Hz in H1|].
    assert (n = 0)%N as -> by lia. injection E as <-. reflexivity.
  - rewrite Hc.
    now rewrite (take_digits_app r rest Hr (ends_number_not_digit _ Hrest)).
Qed.

Lemma is_digit_not_minus (c : char16) : is_digit c = true -> (c =? 0x2D)%N = false.
Proof.
  unfold is_digit. intros H. apply andb_true_iff in H as [H1 H2].
  apply N.leb_le in H1, H2. apply N.eqb_neq. lia.
Qed.

(** An integer of at most 21 digits is written in plain decimal, and read
    back as itself. *)
Lemma parse_number_integer (m : Z) (rest : jsstring) :
  Z.abs m < 10 ^ 21 -> ends_number rest ->
  parse_number (number_toString m 0 ++ rest) = Some (m, 0, rest).
Proof.
  intros Hlt Hrest.
  destruct (Z.eq_dec m 0) as [->|Hm].
  - change (number_toString 0 0 ++ rest) with (48%N :: rest).
    unfold parse_number. change (48 =? 45)%N with false. cbv iota beta.
    unfold integer_part. change (48 =? 48)%N with true. cbv iota beta.
    now rewrite (fraction_part_none _ Hrest), (exponent_part_none _ Hrest).
  - rewrite (number_toString_integer m Hm Hlt).
    destruct (digits_decimal (Z.abs_N m)) as (c & r & E & Hc & _ & _ & Hv).
    unfold parse_number. destruct (Z.ltb_spec m 0) as [Hneg|Hpos].
    + eval_lits. cbn [app]. unfold parse_number.
      change (45 =? 45)%N with true. cbv iota beta.
      rewrite (integer_part_digits _ _ Hrest).
      rewrite (fraction_part_none _ Hrest), (exponent_part_none _ Hrest).
      rewrite app_nil_r, Hv. cbn [length]. do 2 f_equal. f_equal. lia.
    + cbn [app]. unfold parse_number. rewrite E. cbn [app].
      rewrite (is_digit_not_minus c Hc). cbv iota beta.
      change (c :: r ++ rest) with ((c :: r) ++ rest). rewrite <- E.
      rewrite (integer_part_digits _ _ Hrest).
      rewrite (fraction_part_none _ Hrest), (exponent_part_none _ Hrest).
      rewrite app_nil_r, Hv. cbn [length]. do 2 f_equal. f_equal. lia.
Qed.

(** ** Strings through [JSON.stringify] and [JSON.parse] *)

Lemma hex_value_digit_char (d : N) :
  (d < 16)%N -> hex_value (digit_char d) = Some d.
Proof.
  intros Hd. unfold hex_value, digit_char.
  destruct (N.ltb_spec d 10) as [Hlt|Hge].
  - replace ((48 <=? 48 + d)%N && (48 + d <=? 57)%N) with true.
    + f_equal. lia.
    + symmetry. apply andb_true_iff. split; apply N.leb_le; lia.
  - replace ((48 <=? 87 + d)%N && (87 + d <=? 57)%N) with false.
    + replace ((97 <=? 87 + d)%N && (87 + d <=? 102)%N) with true.
      * f_equal. lia.
      * symmetry. apply andb_true_iff. split; apply N.leb_le; lia.
    + symmetry. apply andb_false_iff. right. apply N.leb_gt. lia.
Qed.

(** A [\uXXXX] escape is read back as the code unit it was written for. *)
Lemma string_chars_unicode_escape (c : char16) (t : jsstring) :
  (c < 65536)%N ->
  string_chars (unicode_escape c ++ t) = cons_fst c (string_chars t).
Proof.
  intros Hc. unfold unicode_escape. cbn [app string_chars].
  change (0x5C =? 0x22)%N with false. change (0x5C =? 0x5C)%N with true.
  change (0x75 =? 0x75)%N with true. cbv iota.
  unfold hex4_value.
  rewrite !hex_value_digit_char by divlia.
  replace (c / 4096 * 4096 + c / 256 mod 16 * 256 + c / 16 mod 16 * 16 + c mod 16)%N
    with c by divlia.
  reflexivity.
Qed.

Lemma string_chars_plain (c : char16) (t : jsstring) :
  c <> 0x22%N -> c <> 0x5C%N -> (0x20 <= c)%N ->
  string_chars (c :: t) = cons_fst c (string_chars t).
Proof.
  intros H1 H2 H3. cbn [string_chars].
  apply N.eqb_neq in H1, H2. rewrite H1, H2.
  destruct (N.ltb_spec c 0x20); [lia | reflexivity].
Qed.

Lemma surrogate_bounds (c : char16) :
  is_leading_surrogate c = true \/ is_trailing_surrogate c = true ->
  (c < 65536)%N /\ c <> 0x22%N /\ c <> 0x5C%N /\ (0x20 <= c)%N.
Proof.
  unfold is_leading_surrogate, is_trailing_surrogate.
  intros [H|H]; apply andb_true_iff in H as [H1 H2];
    apply N.leb_le in H1, H2; lia.
Qed.

Lemma string_chars_quote_unit (c : char16) (t : jsstring) :
  string_chars (quote_unit c ++ t) = cons_fst c (string_chars t).
Proof.
  unfold quote_unit.
  repeat match goal with
  | |- context [if (c =? ?k)%N then _ else _] =>
      destruct (N.eqb_spec c k) as [->|?]; [reflexivity|]
  end.
  destruct ((c <? 32)%N || is_leading_surrogate c || is_trailing_surrogate c) eqn:E.
  - apply string_chars_unicode_escape.
    apply orb_true_iff in E as [E|E]; [apply orb_true_iff in E as [E|E]|].
    + apply N.ltb_lt in E. lia.
    + apply surrogate_bounds. now left.
    + apply surrogate_bounds. now right.
  - apply orb_false_iff in E as [E _]. apply orb_false_iff in E as [E _].
    apply N.ltb_ge in E. now apply string_chars_plain.
Qed.


(** A quoted string is read back as the string, up to its closing quote. *)
Lemma string_chars_quote_units (s rest : jsstring) :
  string_chars (quote_units s ++ 0x22%N :: rest) = Some (s, rest).
Proof.
  remember (length s) as n eqn:Hn.
  revert s Hn. induction n as [n IH] using lt_wf_ind. intros s Hn.
  destruct s as [|c r]; [reflexivity|].
  cbn [quote_units].
  assert (IHr : string_chars (quote_units r ++ 0x22%N :: rest) = Some (r, rest)).
  { apply (IH (length r)); [subst n; simpl; lia | reflexivity]. }
  destruct (is_leading_surrogate c) eqn:Hlead.
  - destruct (surrogate_bounds c (or_introl Hlead)) as (Hc & Hq & Hb & Hs).
    destruct r as [|c2 r2].
    + rewrite string_chars_unicode_escape by exact Hc. reflexivity.
    + destruct (is_trailing_surrogate c2) eqn:Htrail.
      * destruct (surrogate_bounds c2 (or_intror Htrail)) as (_ & Hq2 & Hb2 & Hs2).
        cbn [app]. rewrite string_chars_plain by assumption.
        rewrite string_chars_plain by assumption.
        rewrite (IH (length r2)); [reflexivity | subst n; simpl; lia | reflexivity].
      * rewrite <- app_assoc, string_chars_unicode_escape by exact Hc.
        now rewrite IHr.
  - rewrite <- app_assoc, string_chars_quote_unit. now rewrite IHr.
Qed.

(** *** Values *)

Lemma parse_value_string (f : nat) (s rest : jsstring) :
  parse_value (S f) (QuoteJSONString s ++ rest) = Some (VStr s, rest).
Proof.
  unfold QuoteJSONString. rewrite <- !app_assoc. cbn [app parse_value skip_ws].
  change (is_json_ws 34%N) with false. cbv iota.
  change (34 =? 34)%N with true. cbv iota.
  now rewrite string_chars_quote_units.
Qed.

Lemma parse_value_bool (f : nat) (b : bool) (rest : jsstring) :
  parse_value (S f) ((if b then lit "true" else lit "false") ++ rest)
  = Some (VBool b, rest).
Proof.
  destruct b; eval_lits; cbn [app parse_value skip_ws].
  - change (is_json_ws 116%N) with false. cbv iota.
    change (116 =? 34)%N with false. change (116 =? 91)%N with false.
    change (116 =? 123)%N with false. change (116 =? 116)%N with true.
    eval_lits. cbn [expect]. now rewrite !N.eqb_refl.
  - change (is_json_ws 102%N) with false. cbv iota.
    change (102 =? 34)%N with false. change (102 =? 91)%N with false.
    change (102 =? 123)%N with false. change (102 =? 116)%N with false.
    change (102 =? 102)%N with true.
    eval_lits. cbn [expect]. now rewrite !N.eqb_refl.
Qed.

(** The text of a number starts with a sign or a digit. *)
Lemma number_toString_head (m : Z) :
  Z.abs m < 10 ^ 21 ->
  exists c r, number_toString m 0 = c :: r
              /\ (c = 0x2D%N \/ is_digit c = true).
Proof.
  intros Hlt. destruct (Z.eq_dec m 0) as [->|Hm].
  - exists 48%N, []. split; [reflexivity | now right].
  - rewrite (number_toString_integer m Hm Hlt).
    destruct (digits_decimal (Z.abs_N m)) as (c & r & E & Hc & _).
    rewrite E. destruct (m <? 0).
    + exists 0x2D%N, (c :: r). split; [reflexivity | now left].
    + exists c, r. split; [reflexivity | now right].
Qed.

Lemma parse_value_number (f : nat) (m : Z) (rest : jsstring) :
  Z.abs m < 10 ^ 21 -> ends_number rest ->
  parse_value (S f) (number_toString m 0 ++ rest) = Some (VNum m 0, rest).
Proof.
  intros Hlt Hrest.
  pose proof (parse_number_integer m rest Hlt Hrest) as Hp.
  destruct (number_toString_head m Hlt) as (c & r & E & Hc).
  rewrite E in *. cbn [app parse_value skip_ws] in *.
  assert (Hcs : is_json_ws c = false /\ (c =? 34)%N = false /\ (c =? 91)%N = false
                /\ (c =? 123)%N = false /\ (c =? 116)%N = false
                /\ (c =? 102)%N = false /\ (c =? 110)%N = false).
  { destruct Hc as [->|Hd]; [repeat split|].
    unfold is_digit in Hd. apply andb_true_iff in Hd as [H1 H2].
    apply N.leb_le in H1, H2. unfold is_json_ws.
    repeat split; try (apply N.eqb_neq; lia).
    repeat (apply orb_false_iff; split); apply N.eqb_neq; lia. }
  destruct Hcs as (-> & -> & -> & -> & -> & -> & ->).
  now rewrite Hp.
Qed.

(** *** Members and elements *)

Lemma parse_members_more (f : nat) (k : jsstring) (v : value)
    (vtext more r : jsstring) (ms : list (jsstring * value)) :
  parse_value f (vtext ++ 0x2C%N :: more) = Some (v, 0x2C%N :: more) ->
  parse_members f more = Some (ms, r) ->
  parse_members (S f) (QuoteJSONString k ++ 0x3A%N :: vtext ++ 0x2C%N :: more)
  = Some ((k, v) :: ms, r).
Proof.
  intros Hv Hms. unfold QuoteJSONString. rewrite <- !app_assoc.
  cbn [app parse_members skip_ws].
  change (is_json_ws 34%N) with false. cbv iota.
  change (34 =? 34)%N with true. cbv iota.
  rewrite string_chars_quote_units. cbn [skip_ws].
  change (is_json_ws 58%N) with false. cbv iota.
  change (58 =? 58)%N with true. cbv iota.
  rewrite Hv. cbn [skip_ws].
  change (is_json_ws 44%N) with false. cbv iota.
  change (44 =? 44)%N with true. cbv iota.
  now rewrite Hms.
Qed.

Lemma parse_members_last (f : nat) (k : jsstring) (v : value)
    (vtext rest : jsstring) :
  parse_value f (vtext ++ 0x7D%N :: rest) = Some (v, 0x7D%N :: rest) ->
  parse_members (S f) (QuoteJSONString k ++ 0x3A%N :: vtext ++ 0x7D%N :: rest)
  = Some ([(k, v)], rest).
Proof.
  intros Hv. unfold QuoteJSONString. rewrite <- !app_assoc.
  cbn [app parse_members skip_ws].
  change (is_json_ws 34%N) with false. cbv iota.
  change (34 =? 34)%N with true. cbv iota.
  rewrite string_chars_quote_units. cbn [skip_ws].
  change (is_json_ws 58%N) with false. cbv iota.
  change (58 =? 58)%N with true. cbv iota.
  rewrite Hv. cbn [skip_ws].
  change (is_json_ws 125%N) with false. cbv iota.
  change (125 =? 44)%N with false. change (125 =? 125)%N with true. cbv iota.
  reflexivity.
Qed.

Lemma parse_elements_more (f : nat) (v : value) (vtext more r : jsstring)
    (vs : list value) :
  parse_value f (vtext ++ 0x2C%N :: more) = Some (v, 0x2C%N :: more) ->
  parse_elements f more = Some (vs, r) ->
  parse_elements (S f) (vtext ++ 0x2C%N :: more) = Some (v :: vs, r).
Proof.
  intros Hv Hvs. cbn [parse_elements]. rewrite Hv. cbn [skip_ws].
  change (is_json_ws 44%N) with false. cbv iota.
  change (44 =? 44)%N with true. cbv iota.
  now rewrite Hvs.
Qed.

Lemma parse_elements_last (f : nat) (v : value) (vtext rest : jsstring) :
  parse_value f (vtext ++ 0x5D%N :: rest) = Some (v, 0x5D%N :: rest) ->
  parse_elements (S f) (vtext ++ 0x5D%N :: rest) = Some ([v], rest).
Proof.
  intros Hv. cbn [parse_elements]. rewrite Hv. cbn [skip_ws].
  change (is_json_ws 93%N) with false. cbv iota.
  change (93 =? 44)%N with false. change (93 =? 93)%N with true. cbv iota.
  reflexivity.
Qed.

(** *** Task lists *)

Lemma stringify_todo (t : Todo.t) :
  SerializeJSONProperty (todo_value t) = Some (todo_text t).
Proof.
  unfold todo_value, todo_text. cbn [SerializeJSONProperty join_comma List.map concat].
  f_equal. rewrite <- !app_assoc. reflexivity.
Qed.

Lemma stringify_todos (l : list Todo.t) :
  JSON_stringify (todos_value l) = Some (todos_text l).
Proof.
  unfold JSON_stringify, todos_value, todos_text. cbn [SerializeJSONProperty].
  rewrite List.map_map.
  rewrite (map_ext _ todo_text); [reflexivity|].
  intros t. now rewrite stringify_todo.
Qed.

Lemma ends_number_brace (rest : jsstring) : ends_number (0x7D%N :: rest).
Proof. repeat split; discriminate. Qed.

(** The text of a task is read back as the task, whatever follows. *)
Lemma parse_value_todo (f : nat) (t : Todo.t) (rest : jsstring) :
  Z.abs (Todo.createdAt t) < 10 ^ 21 ->
  parse_value (6 + f) (todo_text t ++ rest) = Some (todo_value t, rest).
Proof.
  intros Ht. unfold todo_text. rewrite <- !app_assoc.
  change (lit "{") with [0x7B%N]. change (lit ":") with [0x3A%N].
  change (lit ",") with [0x2C%N]. change (lit "}") with [0x7D%N].
  cbn [app]. change (6 + f)%nat with (S (S (S (S (S (S f)))))).
  cbn [parse_value skip_ws].
  change (is_json_ws 123%N) with false. cbv iota.
  change (123 =? 34)%N with false. change (123 =? 91)%N with false.
  change (123 =? 123)%N with true. cbv iota.
  unfold QuoteJSONString at 1. cbn [app skip_ws].
  change (is_json_ws 34%N) with false. cbv iota.
  change (34 =? 125)%N with false. cbv iota.
  change (34%N :: quote_units (lit "id") ++ 34%N :: ?x)
    with (QuoteJSONString (lit "id") ++ x).
  rewrite (parse_members_more _ (lit "id") (VStr (Todo.id t)) _ _ rest
             [(lit "title", VStr (Todo.title t));
              (lit "completed", VBool (Todo.completed t));
              (lit "createdAt", VNum (Todo.createdAt t) 0)]).
  - reflexivity.
  - apply parse_value_string.
  - apply parse_members_more; [apply parse_value_string|].
    apply parse_members_more; [apply parse_value_bool|].
    apply parse_members_last.
    apply parse_value_number; [exact Ht | apply ends_number_brace].
Qed.

Lemma todo_text_length (t : Todo.t) : (2 <= length (todo_text t))%nat.
Proof.
  unfold todo_text. rewrite !length_app.
  change (length (lit "{")) with 1%nat. change (length (lit "}")) with 1%nat. lia.
Qed.

Lemma join_comma_cons (p : jsstring) (ps : list jsstring) :
  ps <> [] -> join_comma (p :: ps) = p ++ 0x2C%N :: join_comma ps.
Proof.
  destruct ps as [|q qs]; [congruence|]. intros _.
  cbn [join_comma List.map concat]. reflexivity.
Qed.

(** The texts of one or more tasks, separated by commas and closed by a
    bracket, are read back as the tasks. *)
Lemma parse_elements_todos (f : nat) (t : Todo.t) (l : list Todo.t)
    (rest : jsstring) :
  Forall (fun t => Z.abs (Todo.createdAt t) < 10 ^ 21) (t :: l) ->
  parse_elements (length l + 7 + f)
    (join_comma (List.map todo_text (t :: l)) ++ 0x5D%N :: rest)
  = Some (List.map todo_value (t :: l), rest).
Proof.
  revert t. induction l as [|t' l IH]; intros t Hall.
  - cbn [List.map join_comma concat length]. rewrite app_nil_r.
    change (0 + 7 + f)%nat with (S (6 + f)).
    apply parse_elements_last, parse_value_todo. now inversion Hall.
  - cbn [List.map]. rewrite join_comma_cons by discriminate.
    rewrite <- app_assoc. cbn [app length].
    change (S (length l) + 7 + f)%nat with (S (length l + 7 + f)).
    inversion Hall as [|? ? Ht Hl]; subst.
    apply parse_elements_more.
    + replace (length l + 7 + f)%nat with (6 + (length l + 1 + f))%nat by lia.
      now apply parse_value_todo.
    + now apply IH.
Qed.

Lemma todos_text_length (l : list Todo.t) :
  (2 + 2 * length l <= length (todos_text l))%nat.
Proof.
  unfold todos_text. rewrite !length_app.
  change (length (lit "[")) with 1%nat. change (length (lit "]")) with 1%nat.
  assert (2 * length l <= length (join_comma (List.map todo_text l)))%nat; [|lia].
  destruct l as [|t l]; [simpl; lia|].
  revert t. induction l as [|t' l IH]; intros t.
  - cbn [List.map join_comma concat length]. rewrite app_nil_r.
    pose proof (todo_text_length t). lia.
  - cbn [List.map]. rewrite join_comma_cons by discriminate.
    rewrite length_app. cbn [length].
    pose proof (todo_text_length t). specialize (IH t'). cbn [List.map length] in IH. lia.
Qed.

Lemma parse_value_todos (f : nat) (l : list Todo.t) (rest : jsstring) :
  Forall (fun t => Z.abs (Todo.createdAt t) < 10 ^ 21) l ->
  parse_value (length l + 7 + f) (todos_text l ++ rest)
  = Some (todos_value l, rest).
Proof.
  intros Hall. unfold todos_text, todos_value.
  change (lit "[") with [0x5B%N]. change (lit "]") with [0x5D%N].
  rewrite <- !app_assoc. cbn [app].
  replace (length l + 7 + f)%nat with (S (length l + 6 + f)) by lia.
  cbn [parse_value skip_ws].
  change (is_json_ws 91%N) with false. cbv iota.
  change (91 =? 34)%N with false. change (91 =? 91)%N with true. cbv iota.
  destruct l as [|t l].
  - reflexivity.
  - match goal with |- context [skip_ws ?x] => set (text := x) end.
    assert (Hhead : exists r, text = 0x7B%N :: r).
    { subst text. cbn [List.map join_comma]. unfold todo_text at 1.
      change (lit "{") with [0x7B%N]. rewrite <- !app_assoc. cbn [app]. eauto. }
    destruct Hhead as [r Hr]. rewrite Hr. cbn [skip_ws].
    change (is_json_ws 123%N) with false. cbv iota.
    change (123 =? 93)%N with false. cbv iota. rewrite <- Hr. subst text.
    cbn [length]. replace (S (length l) + 6 + f)%nat with (length l + 7 + f)%nat by lia.
    now rewrite parse_elements_todos.
Qed.


(** ** Serialise, then parse *)

Lemma time_value_bound (t : Z) : is_time_value t -> Z.abs t < 10 ^ 21.
Proof. unfold is_time_value. intros H. eapply Z.le_lt_trans; [exact H | reflexivity]. Qed.

Lemma time_values_bound (l : list Todo.t) :
  Forall (fun t => is_time_value (Todo.createdAt t)) l ->
  Forall (fun t => Z.abs (Todo.createdAt t) < 10 ^ 21) l.
Proof.
  intros H. eapply Forall_impl; [exact H|]. intros t. apply time_value_bound.
Qed.

Lemma JSON_parse_todos_text (l : list Todo.t) :
  Forall (fun t => is_time_value (Todo.createdAt t)) l ->
  JSON_parse (todos_text l) = Return (todos_value l).
Proof.
  intros Hall. apply time_values_bound in Hall.
  destruct l as [|t l]; [reflexivity|].
  unfold JSON_parse.
  pose proof (todos_text_length (t :: l)) as Hlen. cbn [length] in Hlen.
  set (text := todos_text (t :: l)) in *.
  replace (2 * length text + 2)%nat
    with (length (t :: l) + 7 + (2 * length text + 2 - length (t :: l) - 7))%nat
    by (cbn [length]; lia).
  rewrite <- (app_nil_r text) at 2. subst text.
  now rewrite (parse_value_todos _ _ [] Hall).
Qed.

Lemma todo_value_inj (t t' : Todo.t) : todo_value t = todo_value t' -> t = t'.
Proof.
  destruct t, t'. unfold todo_value. cbn [Todo.id Todo.title Todo.completed Todo.createdAt].
  intros H. inversion H. reflexivity.
Qed.

Lemma todos_value_inj (l l' : list Todo.t) :
  todos_value l = todos_value l' -> l = l'.
Proof.
  unfold todos_value. intros H. injection H as H. revert l' H.
  induction l as [|t l IH]; intros [|t' l'] H; try discriminate; [reflexivity|].
  cbn [List.map] in H.
  assert (Ht : todo_value t = todo_value t') by congruence.
  assert (Hl : List.map todo_value l = List.map todo_value l') by congruence.
  f_equal; [now apply todo_value_inj | now apply IH].
Qed.

Lemma JSON_parse_empty : JSON_parse [] = Throw SyntaxError.
Proof. reflexivity. Qed.

(** [loadStorage] never throws, and gives what [restored] describes. *)
Lemma loadStorage_restored (key : jsstring) (fallback : value) (st : Storage) :
  loadStorage key fallback st = Return (restored key fallback st).
Proof.
  unfold loadStorage, restored, getItem.
  destruct (reachable st); [|reflexivity].
  cbn [mbind outcome_bind bind try_catch].
  destruct (items st !! key) as [[|c text]|]; [reflexivity| |reflexivity].
  now destruct (JSON_parse (c :: text)).
Qed.

Lemma saveStorage_accepted (key : jsstring) (data : value) (text : jsstring)
    (st : Storage) :
  JSON_stringify data = Some text ->
  reachable st = true -> accepts st key text = true ->
  saveStorage key data st
  = Return {| items := <[key := text]> (items st);
              reachable := reachable st; accepts := accepts st |}.
Proof.
  intros Ht Hr Ha. unfold saveStorage, setItem. now rewrite Ht, Hr, Ha.
Qed.

(** [saveStorage] never throws, whatever the storage does. *)
Lemma saveStorage_total (key : jsstring) (data : value) (st : Storage) :
  exists st', saveStorage key data st = Return st'.
Proof.
  unfold saveStorage, setItem.
  destruct (reachable st); [destruct (accepts st key _)|]; simpl; eauto.
Qed.

(** C6: the JSON text of a task list parses back to the same list: the
    same tasks in the same order, each with its id, title, flag and
    timestamp; so a list that was saved under a key is the list that is
    loaded from it. *)
Theorem todos_roundtrip (l : list Todo.t)
    (Htimes : Forall (fun t => is_time_value (Todo.createdAt t)) l) :
  JSON_stringify (todos_value l) = Some (todos_text l)
  /\ JSON_parse (todos_text l) = Return (todos_value l)
  /\ (forall l', JSON_parse (todos_text l) = Return (todos_value l') -> l' = l)
  /\ (forall key fallback st,
        reachable st = true -> accepts st key (todos_text l) = true ->
        exists st',
          saveStorage key (todos_value l) st = Return st'
          /\ loadStorage key fallback st' = Return (todos_value l)).
Proof.
  split; [apply stringify_todos|].
  split; [now apply JSON_parse_todos_text|]. split.
  - intros l' H. rewrite (JSON_parse_todos_text l Htimes) in H.
    symmetry. apply todos_value_inj. congruence.
  - intros key fallback st Hr Ha. eexists. split.
    + now apply (saveStorage_accepted key _ (todos_text l)); [apply stringify_todos| |].
    + rewrite loadStorage_restored. unfold restored. cbn [reachable items].
      rewrite Hr, lookup_insert_eq. now rewrite (JSON_parse_todos_text l Htimes).
Qed.

Lemma todos_roundtrip_witness :
  JSON_stringify (todos_value sample_todos) = Some (todos_text sample_todos)
  /\ JSON_parse (todos_text sample_todos) = Return (todos_value sample_todos)
  /\ (forall l', JSON_parse (todos_text sample_todos) = Return (todos_value l')
                 -> l' = sample_todos)
  /\ (forall key fallback st,
        reachable st = true -> accepts st key (todos_text sample_todos) = true ->
        exists st',
          saveStorage key (todos_value sample_todos) st = Return st'
          /\ loadStorage key fallback st' = Return (todos_value sample_todos)).
Proof.
  apply (todos_roundtrip sample_todos).
  repeat constructor; unfold is_time_value; simpl; lia.
Defined.

Example sample_todos_text :
  todos_text sample_todos
  = json_lit "[{'id':'m2r1bz7l-4fz8k2','title':'say \'hi\'','completed':false,'createdAt':1730000000001},"
    ++ json_lit "{'id':'m2r1bz7k-4fz8k2','title':'\t" ++ [0xD83D; 0xDE00]%N
    ++ json_lit "\udc00','completed':true,'createdAt':1730000000000}]".
Proof. reflexivity. Qed.

(** ** Startup *)

Lemma initial_cells_restored (st : Storage) :
  initial_cells st
  = Return {| cell_todos := restored STORAGE_KEY (VArr []) st;
              cell_filter := restored STORAGE_FILTER_KEY (VStr DEFAULT_FILTER) st |}.
Proof.
  unfold initial_cells. now rewrite !loadStorage_restored.
Qed.

Lemma get_completed_todo (t : Todo.t) :
  get_completed (todo_value t) = Return (VBool (Todo.completed t))
  /\ not_completed (todo_value t) = Return (is_active t)
  /\ is_completed (todo_value t) = Return (Todo.completed t).
Proof. repeat split; reflexivity. Qed.

Lemma filter_elements_todos (l : list Todo.t) :
  filter_elements not_completed (List.map todo_value l)
  = Return (List.map todo_value (List.filter is_active l))
  /\ filter_elements is_completed (List.map todo_value l)
     = Return (List.map todo_value (List.filter Todo.completed l)).
Proof.
  induction l as [|t l [IH1 IH2]]; [split; reflexivity|].
  destruct (get_completed_todo t) as (_ & Hn & Hc).
  cbn [List.map filter_elements List.filter].
  rewrite Hn, Hc, IH1, IH2. unfold is_active.
  destruct (Todo.completed t); split; reflexivity.
Qed.

(** On the cells of a well-typed state the untyped hook computes the views
    of the typed one. *)
Lemma render_cells_typed (s : State) :
  render_cells (cells_of s) = Return (view_value (useTodos s)).
Proof.
  destruct (filter_elements_todos (todos s)) as [Ha Hc].
  unfold render_cells, cells_of, view_value, useTodos, filtered, counts.
  cbn [cell_todos cell_filter todos_value array_filter view_todos view_filtered
       view_filter view_counts].
  rewrite Ha, Hc. cbn [mbind outcome_bind bind mret outcome_ret].
  rewrite !length_map.
  destruct (strict_eq_string (filter s) (lit "active"));
    [|destruct (strict_eq_string (filter s) (lit "completed"))]; reflexivity.
Qed.

Lemma JSON_parse_quoted (f : jsstring) :
  JSON_parse (QuoteJSONString f) = Return (VStr f).
Proof.
  unfold JSON_parse. rewrite <- (app_nil_r (QuoteJSONString f)) at 2.
  replace (2 * length (QuoteJSONString f) + 2)%nat
    with (S (2 * length (QuoteJSONString f) + 1)) by lia.
  now rewrite parse_value_string.
Qed.

(** A storage that holds the texts of a task list and of a filter name
    starts the hook in that state. *)
Lemma mount_storage_of (l : list Todo.t) (f : jsstring) :
  Forall (fun t => is_time_value (Todo.createdAt t)) l ->
  mount (storage_of l f)
  = Return (view_value (useTodos {| todos := l; filter := VStr f |})).
Proof.
  intros Hl. unfold mount. rewrite initial_cells_restored.
  unfold restored, storage_of. cbn [reachable items].
  rewrite lookup_insert_eq, lookup_insert_ne by discriminate.
  rewrite lookup_singleton_eq.
  rewrite JSON_parse_quoted, (JSON_parse_todos_text l Hl).
  cbn [mbind outcome_bind bind].
  apply (render_cells_typed {| todos := l; filter := VStr f |}).
Qed.

(** The first render throws exactly when the list cell is not an array or
    holds [null] (or [undefined]) as an element. *)
Lemma filter_elements_throws (keep : value -> bool) (l : list value) :
  (exists r, filter_elements (fun t => c ← get_completed t; mret (keep c)) l = Return r)
  <-> Forall (fun x => x <> VNull /\ x <> VUndefined) l.
Proof.
  induction l as [|x l IH]; cbn [filter_elements].
  - split; [constructor | eauto].
  - split.
    + intros [r Hr]. destruct x; cbn in Hr; try discriminate;
        (constructor; [split; discriminate|]); apply IH;
        destruct (filter_elements _ l); try discriminate; eauto.
    + intros H. inversion H as [|? ? [Hn Hu] Hl]; subst.
      apply IH in Hl as [r Hr]. rewrite Hr.
      destruct x; try contradiction; cbn; eauto.
Qed.

Lemma render_cells_returns (c : Cells) :
  (exists v, render_cells c = Return v)
  <-> exists l, cell_todos c = VArr l
                /\ Forall (fun x => x <> VNull /\ x <> VUndefined) l.
Proof.
  unfold render_cells. split.
  - intros [v Hv]. destruct (cell_todos c) as [| | | | |l|] eqn:E;
      try (destruct (strict_eq_string _ _);
           [|destruct (strict_eq_string _ _)]; discriminate).
    exists l. split; [reflexivity|].
    apply (filter_elements_throws (fun c => negb (truthy c))).
    change (exists r, filter_elements not_completed l = Return r).
    revert Hv. cbn [array_filter].
    destruct (filter_elements not_completed l) as [r|e]; [eauto|].
    destruct (strict_eq_string _ _); [|destruct (strict_eq_string _ _)];
      try discriminate.
    destruct (filter_elements is_completed l); discriminate.
  - intros (l & -> & Hl). cbn [array_filter].
    destruct (proj2 (filter_elements_throws (fun c => negb (truthy c)) l) Hl) as [r1 H1].
    destruct (proj2 (filter_elements_throws truthy l) Hl) as [r2 H2].
    change (filter_elements not_completed l = Return r1) in H1.
    change (filter_elements is_completed l = Return r2) in H2.
    rewrite H1, H2.
    destruct (strict_eq_string _ _); [|destruct (strict_eq_string _ _)];
      cbn; eauto.
Qed.

Lemma restored_cases (key : jsstring) (fallback : value) (st : Storage) :
  (reachable st = false -> restored key fallback st = fallback)
  /\ (items st !! key = None -> restored key fallback st = fallback)
  /\ (forall text e,
        items st !! key = Some text -> JSON_parse text = Throw e ->
        restored key fallback st = fallback)
  /\ (forall text v,
        reachable st = true -> items st !! key = Some text ->
        JSON_parse text = Return v ->
        restored key fallback st = v).
Proof.
  unfold restored. repeat split.
  - now intros ->.
  - intros ->. now destruct (reachable st).
  - intros text e -> ->. now destruct (reachable st).
  - now intros text v -> -> ->.
Qed.

(** C7 (as amended): reading the two cells at startup never throws,
    whatever the storage holds.  A cell gets its default (the empty list,
    the filter ["all"]) when the storage cannot be reached, the key is
    absent, or its text does not parse as JSON; otherwise it gets the parsed
    value, of whatever shape.  The first render then returns whenever the
    list cell is an array without [null] elements, and for a storage that
    holds the texts of a task list and a filter name it returns the views of
    that state. *)
Theorem startup_restores (st : Storage) :
  let c := {| cell_todos := restored STORAGE_KEY (VArr []) st;
              cell_filter := restored STORAGE_FILTER_KEY (VStr DEFAULT_FILTER) st |} in
  initial_cells st = Return c
  /\ (forall key fallback,
        loadStorage key fallback st = Return (restored key fallback st)
        /\ (reachable st = false -> restored key fallback st = fallback)
        /\ (items st !! key = None -> restored key fallback st = fallback)
        /\ (forall text e,
              items st !! key = Some text -> JSON_parse text = Throw e ->
              restored key fallback st = fallback)
        /\ (forall text v,
              reachable st = true -> items st !! key = Some text ->
              JSON_parse text = Return v ->
              restored key fallback st = v))
  /\ (forall l,
        cell_todos c = VArr l ->
        Forall (fun x => x <> VNull /\ x <> VUndefined) l ->
        exists v, mount st = Return v)
  /\ (forall l f,
        Forall (fun t => is_time_value (Todo.createdAt t)) l ->
        mount (storage_of l f)
        = Return (view_value (useTodos {| todos := l; filter := VStr f |}))).
Proof.
  cbv zeta. split; [apply initial_cells_restored|]. split; [|split].
  - intros key fallback. split; [apply loadStorage_restored | apply restored_cases].
  - intros l Hl Hnn. unfold mount. rewrite initial_cells_restored.
    cbn [mbind outcome_bind bind]. apply render_cells_returns.
    exists l. split; assumption.
  - intros l f. apply mount_storage_of.
Qed.

(** C7, the claim as stated: with the text [null] under the list key the
    first call of the hook throws a TypeError: the text parses, the list
    cell holds [null], and [counts] calls [filter] on it. *)
Lemma mount_null_throws :
  initial_cells null_storage
  = Return {| cell_todos := VNull; cell_filter := VStr (lit "all") |}
  /\ mount null_storage = Throw TypeError.
Proof. split; reflexivity. Qed.

Example mount_garbage :
  mount {| items := {[ STORAGE_KEY := json_lit "[{'id':" ]};
           reachable := true; accepts := fun _ _ => true |}
  = Return (view_value (useTodos empty_state)).
Proof. reflexivity. Qed.

Example mount_unreachable :
  mount {| items := {[ STORAGE_KEY := json_lit "null" ]};
           reachable := false; accepts := fun _ _ => true |}
  = Return (view_value (useTodos empty_state)).
Proof. reflexivity. Qed.

(** ** The fuel of [JSON.parse] *)

Lemma skip_ws_length (s : jsstring) : (length (skip_ws s) <= length s)%nat.
Proof.
  induction s as [|c r IH]; simpl; [lia|].
  destruct (is_json_ws c); simpl; lia.
Qed.

Lemma cons_fst_some {A B} (a : A) (r : option (list A * B)) l b :
  cons_fst a r = Some (l, b) -> exists l', r = Some (l', b) /\ l = a :: l'.
Proof.
  destruct r as [[l' b']|]; simpl; [|discriminate].
  intros H. injection H as <- <-. eauto.
Qed.

Lemma string_chars_length (s k r : jsstring) :
  string_chars s = Some (k, r) -> (length r < length s)%nat.
Proof.
  remember (length s) as n eqn:Hn. revert s k r Hn.
  induction n as [n IH] using lt_wf_ind. intros s k r Hn.
  destruct s as [|c s1]; [discriminate|]. cbn [string_chars].
  destruct (c =? 34)%N.
  { intros H. injection H as <- <-. subst n. simpl. lia. }
  destruct (c =? 92)%N.
  - destruct s1 as [|e s2]; [discriminate|].
    destruct (e =? 117)%N.
    + destruct s2 as [|h1 [|h2 [|h3 [|h4 s3]]]]; try discriminate.
      destruct (hex4_value h1 h2 h3 h4); [|discriminate].
      intros H. apply cons_fst_some in H as (k' & H & _).
      apply (IH (length s3)) in H; [|subst n; simpl; lia|reflexivity].
      subst n. simpl. lia.
    + destruct (simple_escape e); [|discriminate].
      intros H. apply cons_fst_some in H as (k' & H & _).
      apply (IH (length s2)) in H; [|subst n; simpl; lia|reflexivity].
      subst n. simpl. lia.
  - destruct (c <? 32)%N; [discriminate|].
    intros H. apply cons_fst_some in H as (k' & H & _).
    apply (IH (length s1)) in H; [|subst n; simpl; lia|reflexivity].
    subst n. simpl. lia.
Qed.

Lemma take_digits_length (s ds r : jsstring) :
  take_digits s = (ds, r) -> length s = (length ds + length r)%nat.
Proof.
  revert ds r. induction s as [|c s IH]; intros ds r; simpl.
  - intros H. injection H as <- <-. reflexivity.
  - destruct (is_digit c).
    + destruct (take_digits s) as [ds' r'] eqn:E. intros H.
      injection H as <- <-. simpl. now rewrite (IH ds' r').
    + intros H. injection H as <- <-. reflexivity.
Qed.

Lemma integer_part_length (s ints r : jsstring) :
  integer_part s = Some (ints, r) -> (length r < length s)%nat.
Proof.
  unfold integer_part. destruct s as [|c s]; [discriminate|].
  destruct (c =? 48)%N.
  - intros H. injection H as <- <-. simpl. lia.
  - destruct (is_digit c) eqn:D; [|discriminate].
    intros H. injection H as H.
    pose proof (take_digits_length (c :: s) ints r H) as L.
    cbn [take_digits] in H. rewrite D in H. destruct (take_digits s) as [ds' r'].
    injection H as <- <-. simpl in L. simpl. lia.
Qed.

Lemma fraction_part_length (s fs r : jsstring) :
  fraction_part s = Some (fs, r) -> (length r <= length s)%nat.
Proof.
  unfold fraction_part. destruct s as [|c s].
  - intros H. now injection H as <- <-.
  - destruct (c =? 46)%N.
    + destruct (take_digits s) as [[|d ds] r'] eqn:E; [discriminate|].
      intros H. injection H as <- <-.
      apply take_digits_length in E. simpl in *. lia.
    + intros H. now injection H as <- <-.
Qed.

Lemma exponent_part_length (s r : jsstring) (x : Z) :
  exponent_part s = Some (x, r) -> (length r <= length s)%nat.
Proof.
  unfold exponent_part. destruct s as [|c s].
  - intros H. now injection H as <- <-.
  - destruct ((c =? 101)%N || (c =? 69)%N).
    + destruct s as [|g s'].
      * simpl. discriminate.
      * destruct (g =? 45)%N; [|destruct (g =? 43)%N].
        all: match goal with
             | |- context [take_digits ?t] =>
                 destruct (take_digits t) as [[|d ds] r'] eqn:E; [discriminate|]
             end.
        all: intros H; injection H as <- <-;
          apply take_digits_length in E; simpl in *; lia.
    + intros H. now injection H as <- <-.
Qed.

Lemma parse_number_length (s r : jsstring) (m e : Z) :
  parse_number s = Some (m, e, r) -> (length r < length s)%nat.
Proof.
  unfold parse_number.
  assert (Hsign : forall (neg : bool) (s1 : jsstring),
    (length s1 <= length s)%nat ->
    match integer_part s1 with
    | Some (ints, s2) =>
        match fraction_part s2 with
        | Some (fracs, s3) =>
            match exponent_part s3 with
            | Some (x, s4) =>
                Some (if neg then - Z.of_N (digits_value (ints ++ fracs))
                      else Z.of_N (digits_value (ints ++ fracs)),
                      x - Z.of_nat (length fracs), s4)
            | None => None
            end
        | None => None
        end
    | None => None
    end = Some (m, e, r) -> (length r < length s)%nat).
  { intros neg s1 Hs1.
    destruct (integer_part s1) as [[ints s2]|] eqn:E1; [|discriminate].
    destruct (fraction_part s2) as [[fracs s3]|] eqn:E2; [|discriminate].
    destruct (exponent_part s3) as [[x s4]|] eqn:E3; [|discriminate].
    intros H. injection H as _ _ <-.
    apply integer_part_length in E1. apply fraction_part_length in E2.
    apply exponent_part_length in E3. lia. }
  destruct s as [|c s']; [apply (Hsign false []); simpl; lia|].
  destruct (c =? 45)%N;
    [apply (Hsign true s') | apply (Hsign false (c :: s'))]; simpl; lia.
Qed.

Lemma expect_length (w s r : jsstring) :
  expect w s = Some r -> (length r <= length s)%nat.
Proof.
  revert s. induction w as [|x w IH]; intros s; simpl.
  - intros H. injection H as <-. lia.
  - destruct s as [|c s]; [discriminate|].
    destruct (c =? x)%N; [|discriminate].
    intros H. apply IH in H. simpl. lia.
Qed.

(** Every parser consumes at least one code unit when it succeeds. *)
Lemma parse_length (f : nat) :
  (forall s v r, parse_value f s = Some (v, r) -> (length r < length s)%nat)
  /\ (forall s vs r, parse_elements f s = Some (vs, r) -> (length r < length s)%nat)
  /\ (forall s ms r, parse_members f s = Some (ms, r) -> (length r < length s)%nat).
Proof.
  induction f as [|f (Hv & He & Hm)]; [repeat split; discriminate|].
  assert (Hv' : forall s v r,
            parse_value (S f) s = Some (v, r) -> (length r < length s)%nat).
  { intros s v r. cbn [parse_value].
    pose proof (skip_ws_length s) as Ls.
    destruct (skip_ws s) as [|c t]; [discriminate|]. cbn [length] in Ls.
    destruct (c =? 34)%N.
    { destruct (string_chars t) as [[str r']|] eqn:E; [|discriminate].
      intros H. injection H as _ <-. apply string_chars_length in E. lia. }
    destruct (c =? 91)%N.
    { pose proof (skip_ws_length t) as Lt.
      destruct (skip_ws t) as [|c' t']; [discriminate|]. cbn [length] in Lt.
      destruct (c' =? 93)%N.
      - intros H. injection H as _ <-. lia.
      - destruct (parse_elements f t) as [[vs r']|] eqn:E; [|discriminate].
        intros H. injection H as _ <-. apply He in E. lia. }
    destruct (c =? 123)%N.
    { pose proof (skip_ws_length t) as Lt.
      destruct (skip_ws t) as [|c' t']; [discriminate|]. cbn [length] in Lt.
      destruct (c' =? 125)%N.
      - intros H. injection H as _ <-. lia.
      - destruct (parse_members f t) as [[ms r']|] eqn:E; [|discriminate].
        intros H. injection H as _ <-. apply Hm in E. lia. }
    destruct (c =? 116)%N.
    { destruct (expect _ t) as [r'|] eqn:E; [|discriminate].
      intros H. injection H as _ <-. apply expect_length in E. lia. }
    destruct (c =? 102)%N.
    { destruct (expect _ t) as [r'|] eqn:E; [|discriminate].
      intros H. injection H as _ <-. apply expect_length in E. lia. }
    destruct (c =? 110)%N.
    { destruct (expect _ t) as [r'|] eqn:E; [|discriminate].
      intros H. injection H as _ <-. apply expect_length in E. lia. }
    destruct (parse_number (c :: t)) as [[[m e] r']|] eqn:E; [|discriminate].
    intros H. injection H as _ <-. apply parse_number_length in E.
    cbn [length] in E. lia. }
  split; [exact Hv'|]. split.
  - intros s vs r. cbn [parse_elements].
    destruct (parse_value f s) as [[v t]|] eqn:E; [|discriminate].
    apply Hv in E. pose proof (skip_ws_length t) as Lt.
    destruct (skip_ws t) as [|c t']; [discriminate|]. cbn [length] in Lt.
    destruct (c =? 44)%N.
    + destruct (parse_elements f t') as [[vs' r']|] eqn:E'; [|discriminate].
      intros H. injection H as _ <-. apply He in E'. lia.
    + destruct (c =? 93)%N; [|discriminate].
      intros H. injection H as _ <-. lia.
  - intros s ms r. cbn [parse_members].
    pose proof (skip_ws_length s) as Ls.
    destruct (skip_ws s) as [|c t]; [discriminate|]. cbn [length] in Ls.
    destruct (c =? 34)%N; [|discriminate].
    destruct (string_chars t) as [[k t1]|] eqn:E1; [|discriminate].
    apply string_chars_length in E1. pose proof (skip_ws_length t1) as L1.
    destruct (skip_ws t1) as [|c1 t2]; [discriminate|]. cbn [length] in L1.
    destruct (c1 =? 58)%N; [|discriminate].
    destruct (parse_value f t2) as [[v t3]|] eqn:E2; [|discriminate].
    apply Hv in E2. pose proof (skip_ws_length t3) as L3.
    destruct (skip_ws t3) as [|c3 t4]; [discriminate|]. cbn [length] in L3.
    destruct (c3 =? 44)%N.
    + destruct (parse_members f t4) as [[ms' r']|] eqn:E'; [|discriminate].
      intros H. injection H as _ <-. apply Hm in E'. lia.
    + destruct (c3 =? 125)%N; [|discriminate].
      intros H. injection H as _ <-. lia.
Qed.

(** Beyond twice the length of the text, more fuel changes nothing: no
    parse fails for want of fuel. *)
Lemma parse_fuel_enough (n : nat) :
  forall s, (length s <= n)%nat ->
    (forall f g, (2 * n + 1 <= f)%nat -> (2 * n + 1 <= g)%nat ->
       parse_value f s = parse_value g s)
    /\ (forall f g, (2 * n + 2 <= f)%nat -> (2 * n + 2 <= g)%nat ->
          parse_elements f s = parse_elements g s)
    /\ (forall f g, (2 * n + 2 <= f)%nat -> (2 * n + 2 <= g)%nat ->
          parse_members f s = parse_members g s).
Proof.
  induction n as [|n IH]; intros s Hs.
  - destruct s; [|simpl in Hs; lia]. repeat split; intros [|f] [|g] Hf Hg; try lia;
      try reflexivity.
    cbn [parse_elements]. destruct f, g; try lia; reflexivity.
  - assert (A : forall t, (length t <= S n)%nat ->
              forall f g, (2 * S n + 1 <= f)%nat -> (2 * S n + 1 <= g)%nat ->
                parse_value f t = parse_value g t).
    { intros t Ht [|f] [|g] Hf Hg; try lia. cbn [parse_value].
      pose proof (skip_ws_length t) as Lt.
      destruct (skip_ws t) as [|c r]; [reflexivity|]. cbn [length] in Lt.
      destruct (IH r ltac:(lia)) as (_ & B & C).
      rewrite (B f g), (C f g) by lia. reflexivity. }
    split; [now apply A|]. split.
    + intros [|f] [|g] Hf Hg; try lia. cbn [parse_elements].
      rewrite (A s Hs f g) by lia.
      destruct (parse_value g s) as [[v t]|] eqn:E; [|reflexivity].
      apply (proj1 (parse_length g)) in E.
      pose proof (skip_ws_length t) as Lt.
      destruct (skip_ws t) as [|c t']; [reflexivity|]. cbn [length] in Lt.
      destruct (IH t' ltac:(lia)) as (_ & B & _).
      rewrite (B f g) by lia. reflexivity.
    + intros [|f] [|g] Hf Hg; try lia. cbn [parse_members].
      pose proof (skip_ws_length s) as Ls.
      destruct (skip_ws s) as [|c t]; [reflexivity|]. cbn [length] in Ls.
      destruct (c =? 34)%N; [|reflexivity].
      destruct (string_chars t) as [[k t1]|] eqn:E1; [|reflexivity].
      apply string_chars_length in E1. pose proof (skip_ws_length t1) as L1.
      destruct (skip_ws t1) as [|c1 t2]; [reflexivity|]. cbn [length] in L1.
      destruct (c1 =? 58)%N; [|reflexivity].
      destruct (IH t2 ltac:(lia)) as (A2 & _ & _).
      rewrite (A2 f g) by lia.
      destruct (parse_value g t2) as [[v t3]|] eqn:E2; [|reflexivity].
      apply (proj1 (parse_length g)) in E2.
      pose proof (skip_ws_length t3) as L3.
      destruct (skip_ws t3) as [|c3 t4]; [reflexivity|]. cbn [length] in L3.
      destruct (IH t4 ltac:(lia)) as (_ & _ & C4).
      rewrite (C4 f g) by lia. reflexivity.
Qed.

(** [JSON_parse] gives what the parser gives with any larger fuel. *)
Lemma JSON_parse_fuel (text : jsstring) (f : nat) :
  (2 * length text + 2 <= f)%nat ->
  parse_value f text = parse_value (2 * length text + 2) text.
Proof.
  intros Hf.
  destruct (parse_fuel_enough (length text) text (Nat.le_refl _)) as (A & _).
  apply A; lia.
Qed.

(** ** What [uid] distinguishes *)

Lemma radix_value_snoc (radix : N) (ds : jsstring) (c : char16) :
  radix_value radix (ds ++ [c])
  = (radix * radix_value radix ds + digit_of_char c)%N.
Proof. unfold radix_value. now rewrite fold_left_app. Qed.

Lemma digit_char_radix (d : N) :
  (d < 36)%N -> digit_of_char (digit_char d) = d /\ digit_char d <> 45%N.
Proof.
  intros Hd. unfold digit_of_char, digit_char.
  destruct (N.ltb_spec d 10).
  - destruct (N.ltb_spec (48 + d) 58); lia.
  - destruct (N.ltb_spec (87 + d) 58); lia.
Qed.

(** In any radix up to 36 the digits denote the number and hold no
    hyphen. *)
Lemma digits_fuel_radix (radix : N) (f : nat) (n : N) :
  (2 <= radix <= 36)%N -> (n < 2 ^ N.of_nat f)%N ->
  radix_value radix (digits_fuel radix f n) = n
  /\ Forall (fun c => c <> 45%N) (digits_fuel radix f n).
Proof.
  intros Hr. revert n. induction f as [|f IH]; intros n Hn.
  - simpl in Hn. assert (n = 0)%N as -> by lia.
    split; [unfold radix_value; cbn [digits_fuel fold_left];
            now rewrite N.mul_0_r|].
    repeat constructor. discriminate.
  - cbn [digits_fuel]. destruct (N.ltb_spec n radix) as [Hlt|Hge].
    + destruct (digit_char_radix n ltac:(lia)) as [E Hc].
      split; [|repeat constructor; exact Hc].
      unfold radix_value. cbn [fold_left]. rewrite E. lia.
    + rewrite Nat2N.inj_succ, N.pow_succ_r' in Hn.
      assert (0 < 2 ^ N.of_nat f)%N by (apply N.neq_0_lt_0, N.pow_nonzero; lia).
      assert (Hq : (n / radix < 2 ^ N.of_nat f)%N).
      { apply N.Div0.div_lt_upper_bound. nia. }
      destruct (IH _ Hq) as [Ev Hall].
      assert (Hm : (n mod radix < 36)%N).
      { pose proof (N.mod_upper_bound n radix). lia. }
      destruct (digit_char_radix _ Hm) as [E Hc].
      split.
      * rewrite radix_value_snoc, Ev, E. symmetry. apply N.div_mod. lia.
      * apply Forall_app. split; [exact Hall | repeat constructor; exact Hc].
Qed.

Lemma hyphen_split (a a' b b' : jsstring) :
  Forall (fun c => c <> 45%N) a -> Forall (fun c => c <> 45%N) a' ->
  a ++ 45%N :: b = a' ++ 45%N :: b' -> a = a' /\ b = b'.
Proof.
  intros Ha. revert a'. induction Ha as [|x a Hx Ha IH]; intros a' Ha' E.
  - destruct Ha' as [|y a' Hy _]; simpl in E.
    + injection E as <-. auto.
    + injection E as E _. congruence.
  - destruct Ha' as [|y a' Hy Ha']; simpl in E.
    + injection E as E _. congruence.
    + injection E as <- E. destruct (IH a' Ha' E) as [-> ->]. auto.
Qed.

(** Two ids are equal only if they were built in the same millisecond from
    random draws with the same six digits. *)
Lemma uid_injective (now now' : Z) (random36 random36' : jsstring) :
  0 <= now -> 0 <= now' ->
  uid now random36 = uid now' random36' ->
  now = now' /\ slice 2 8 random36 = slice 2 8 random36'.
Proof.
  intros Hn Hn'. unfold uid, int_toString.
  destruct (Z.ltb_spec now 0); [lia|]. destruct (Z.ltb_spec now' 0); [lia|].
  change (lit "-") with [45%N]. cbn [app]. unfold digits.
  destruct (digits_fuel_radix 36 _ _ ltac:(lia) (size_nat_bound (Z.abs_N now)))
    as [Ev Hall].
  destruct (digits_fuel_radix 36 _ _ ltac:(lia) (size_nat_bound (Z.abs_N now')))
    as [Ev' Hall'].
  intros E. destruct (hyphen_split _ _ _ _ Hall Hall' E) as [Ed Es].
  split; [|exact Es]. rewrite Ed in Ev. rewrite Ev' in Ev. lia.
Qed.

Lemma digits_fuel_not_nil (radix : N) (f : nat) (n : N) :
  digits_fuel radix f n <> [].
Proof.
  destruct f as [|f]; cbn [digits_fuel]; [discriminate|].
  destruct (n <? radix)%N; [discriminate|].
  intros H. apply app_eq_nil in H as [_ H]. discriminate H.
Qed.

(** The same for every clock reading, a negative one included: its text
    then starts with the sign, which no digit is. *)
Lemma uid_injective_signed (now now' : Z) (random36 random36' : jsstring) :
  uid now random36 = uid now' random36' ->
  now = now' /\ slice 2 8 random36 = slice 2 8 random36'.
Proof.
  unfold uid, int_toString. change (lit "-") with [45%N]. unfold digits.
  destruct (digits_fuel_radix 36 _ _ ltac:(lia) (size_nat_bound (Z.abs_N now)))
    as [Ev Hall].
  destruct (digits_fuel_radix 36 _ _ ltac:(lia) (size_nat_bound (Z.abs_N now')))
    as [Ev' Hall'].
  pose proof (digits_fuel_not_nil 36 (N.size_nat (Z.abs_N now)) (Z.abs_N now)) as Hne.
  pose proof (digits_fuel_not_nil 36 (N.size_nat (Z.abs_N now')) (Z.abs_N now')) as Hne'.
  set (d := digits_fuel 36 _ (Z.abs_N now)) in *.
  set (d' := digits_fuel 36 _ (Z.abs_N now')) in *.
  destruct (Z.ltb_spec now 0) as [Hn|Hn]; destruct (Z.ltb_spec now' 0) as [Hn'|Hn'];
    cbn [app]; intros E.
  - injection E as E. destruct (hyphen_split _ _ _ _ Hall Hall' E) as [Ed Es].
    split; [|exact Es]. rewrite Ed in Ev. rewrite Ev' in Ev. lia.
  - destruct d' as [|c d']; [congruence|]. cbn [app] in E. injection E as Ec _.
    apply List.Forall_cons_iff in Hall' as [Hc _]. congruence.
  - destruct d as [|c d]; [congruence|]. cbn [app] in E. injection E as Ec _.
    apply List.Forall_cons_iff in Hall as [Hc _]. congruence.
  - destruct (hyphen_split _ _ _ _ Hall Hall' E) as [Ed Es].
    split; [|exact Es]. rewrite Ed in Ev. rewrite Ev' in Ev. lia.
Qed.

(** ** Ids along a run *)

Lemma uid_of_equal_iff (env env' : Readings) :
  uid_of env = uid_of env' <-> uid_readings env = uid_readings env'.
Proof.
  unfold uid_of, uid_readings. split.
  - intros E. apply uid_injective_signed in E as [-> ->]. reflexivity.
  - intros E. injection E as E1 E2. unfold uid. now rewrite E1, E2.
Qed.

Lemma In_map_uid_iff (env : Readings) (l : list Readings) :
  In (uid_of env) (List.map uid_of l)
  <-> In (uid_readings env) (List.map uid_readings l).
Proof.
  rewrite !in_map_iff. split; intros (x & E & Hx); exists x; (split; [|exact Hx]).
  - now apply uid_of_equal_iff.
  - now apply uid_of_equal_iff.
Qed.

(** The ids built from a list of readings are pairwise distinct exactly
    when the readings differ pairwise in what [uid] keeps of them. *)
Lemma NoDup_uid_iff (l : list Readings) :
  NoDup (List.map uid_of l) <-> NoDup (List.map uid_readings l).
Proof.
  induction l as [|env l IH]; cbn [List.map].
  - split; constructor.
  - rewrite !NoDup_cons, !list_elem_of_In, IH, In_map_uid_iff. reflexivity.
Qed.

Lemma ids_step_origin (a : action) (s : State) (x : jsstring) :
  In x (ids (todos (step a s))) ->
  In x (ids (todos s)) \/ In x (List.map uid_of (created [a])).
Proof.
  destruct a as [env title|id|id| |v]; cbn [step created].
  - destruct (addTodo_cases env title s) as [[E ->]|[E ->]]; [now left|].
    destruct (trim title); [congruence|]. cbn [todos ids List.map Todo.id].
    intros [<-|H]; [right; left; reflexivity | now left].
  - rewrite ids_toggleTodo. now left.
  - intros H. left. apply list_elem_of_In in H. apply list_elem_of_In.
    exact (elem_of_sublist _ _ _ H (ids_filter_sublist _ _)).
  - intros H. left. apply list_elem_of_In in H. apply list_elem_of_In.
    exact (elem_of_sublist _ _ _ H (ids_filter_sublist _ _)).
  - now left.
Qed.

Lemma created_cons (a : action) (acts : list action) :
  created (a :: acts) = created [a] ++ created acts.
Proof.
  destruct a as [env title| | | |]; cbn [created]; try reflexivity.
  destruct (trim title); reflexivity.
Qed.

(** Every id of the list at the end of a run was in the list at the start
    or was built by [uid] in a call of [addTodo] of the run. *)
Lemma ids_run_origin (acts : list action) (s : State) (x : jsstring) :
  In x (ids (todos (run acts s))) ->
  In x (ids (todos s)) \/ In x (List.map uid_of (created acts)).
Proof.
  revert s. induction acts as [|a acts IH]; intros s H; [now left|].
  change (run (a :: acts) s) with (run acts (step a s)) in H.
  rewrite created_cons, List.map_app, in_app_iff.
  destruct (IH _ H) as [H1|H1]; [|tauto].
  destruct (ids_step_origin a s x H1); tauto.
Qed.

(** When the readings of the adding calls differ pairwise in what [uid]
    keeps, and none of their ids is in the list at the start, every added
    task gets an id that no task of the list has. *)
Lemma created_unused (acts : list action) (s : State) :
  (forall env, In env (created acts) -> ~ In (uid_of env) (ids (todos s))) ->
  NoDup (List.map uid_readings (created acts)) ->
  unused_ids_run acts s.
Proof.
  revert s. induction acts as [|a acts IH]; intros s Hs Hnd; [exact I|].
  rewrite created_cons in Hs, Hnd.
  assert (Hrest : unused_ids_run acts (step a s)).
  { apply IH.
    - intros env Henv Hin. apply ids_step_origin in Hin as [Hin|Hin].
      + apply (Hs env); [apply in_or_app; now right | exact Hin].
      + rewrite List.map_app in Hnd. apply NoDup_app in Hnd as (_ & Hdis & _).
        apply In_map_uid_iff in Hin.
        apply (Hdis (uid_readings env)); rewrite list_elem_of_In;
          [exact Hin | now apply in_map].
    - rewrite List.map_app in Hnd. now apply NoDup_app in Hnd as (_ & _ & Hnd). }
  split; [|exact Hrest].
  destruct a as [env title| | | |]; try exact I.
  cbn [created] in Hs. destruct (trim title) as [|c r]; [now left|]. right.
  apply Hs. now left.
Qed.

Lemma unused_ids_run_firstn (n : nat) (acts : list action) (s : State) :
  unused_ids_run acts s -> unused_ids_run (firstn n acts) s.
Proof.
  revert acts s. induction n as [|n IH]; intros [|a acts] s H; try exact I.
  destruct H as [Ha H]. split; [exact Ha | now apply IH].
Qed.

(** C8 (as amended): two ids built by [uid] are equal exactly when they
    were built from the same clock reading and the same six random digits.
    So take any run of [addTodo], [toggleTodo], [deleteTodo],
    [clearCompleted] and [setFilter] from a list without duplicate ids, in
    which the calls of [addTodo] that add a task differ pairwise in the pair
    of clock reading and random digits, and build no id of the list the run
    starts from.  Then the ids of all the tasks created in the run, deleted
    ones included, are pairwise distinct; no two tasks of the list share an
    id, at the end of the run and after each of its steps; and every id of
    the list is one of the list at the start or one that [uid] built. *)
Theorem ids_distinct_run (acts : list action) (s : State) :
  NoDup (ids (todos s)) ->
  (forall env, In env (created acts) -> ~ In (uid_of env) (ids (todos s))) ->
  NoDup (List.map uid_readings (created acts)) ->
  NoDup (List.map uid_of (created acts))
  /\ NoDup (ids (todos (run acts s)))
  /\ (forall n, NoDup (ids (todos (run (firstn n acts) s))))
  /\ (forall x, In x (ids (todos (run acts s))) ->
        In x (ids (todos s)) \/ In x (List.map uid_of (created acts))).
Proof.
  intros Hnd Hs Hr. pose proof (created_unused acts s Hs Hr) as Hrun.
  split; [now apply NoDup_uid_iff|]. split; [now apply run_ids_distinct|].
  split.
  - intros n. apply run_ids_distinct; [exact Hnd|].
    now apply unused_ids_run_firstn.
  - intros x. apply ids_run_origin.
Qed.

Lemma ids_distinct_run_witness :
  NoDup (List.map uid_of (created session_run))
  /\ NoDup (ids (todos (run session_run restored_state)))
  /\ (forall n, NoDup (ids (todos (run (firstn n session_run) restored_state))))
  /\ (forall x, In x (ids (todos (run session_run restored_state))) ->
        In x (ids (todos restored_state))
        \/ In x (List.map uid_of (created session_run))).
Proof.
  apply (ids_distinct_run session_run restored_state).
  - vm_compute. repeat constructor. intros H. inversion H.
  - intros env Henv Hin. vm_compute in Henv.
    cbn [restored_state todos ids List.map Todo.id In] in Hin.
    destruct Hin as [Hin|[]].
    destruct Henv as [<-|[<-|[<-|[]]]]; vm_compute in Hin; discriminate Hin.
  - vm_compute. repeat constructor; rewrite list_elem_of_In; cbn [In];
      intros H; repeat (destruct H as [H|H]; [discriminate H|]); exact H.
Defined.

(** The run of that session: three tasks are created, one of them is
    deleted again, and the list ends with three tasks. *)
Example session_run_ids :
  List.map uid_of (created session_run)
  = [lit "m2r1bz7k-4fz8k2"; lit "m2r1bz7l-4fz8k2"; lit "m2r1bz7l-9q0aab"]
  /\ ids (todos (run session_run restored_state))
     = [lit "m2r1bz7l-9q0aab"; lit "m2r1bz7k-4fz8k2"; lit "from-storage"].
Proof. split; reflexivity. Qed.

(** An id can come back after its task was deleted: the list then has no
    duplicate, while two of the tasks created in the run had the same id. *)
Example id_reused_after_delete :
  let acts := [AddTodo first_readings (lit "a");
               DeleteTodo (lit "m2r1bz7k-4fz8k2");
               AddTodo second_readings (lit "b")] in
  ids (todos (run acts empty_state)) = [lit "m2r1bz7k-4fz8k2"]
  /\ ~ NoDup (List.map uid_of (created acts)).
Proof.
  split; [reflexivity|]. intros H. apply NoDup_uid_iff in H.
  vm_compute in H. inversion H as [|x l Hx _]. apply Hx. left.
Qed.

(** ** Persistence *)

(** A write touches its own key only. *)
Lemma saveStorage_other_key (key key' : jsstring) (data : value)
    (st st' : Storage) :
  saveStorage key data st = Return st' -> key' <> key ->
  items st' !! key' = items st !! key'.
Proof.
  unfold saveStorage, setItem. intros H Hne.
  destruct (reachable st); [destruct (accepts st key _)|]; simpl in H;
    injection H as <-; try reflexivity.
  simpl. now rewrite lookup_insert_ne.
Qed.

(** Saving both cells and starting again gives the state back, when the
    storage takes the writes and the filter is a string. *)
Lemma persist_then_mount (l : list Todo.t) (f : jsstring) (st : Storage) :
  Forall (fun t => is_time_value (Todo.createdAt t)) l ->
  reachable st = true -> (forall k text, accepts st k text = true) ->
  exists st1 st2,
    persist_todos {| todos := l; filter := VStr f |} st = Return st1
    /\ persist_filter {| todos := l; filter := VStr f |} st1 = Return st2
    /\ mount st2
       = Return (view_value (useTodos {| todos := l; filter := VStr f |})).
Proof.
  intros Hl Hr Ha. unfold persist_todos, persist_filter. cbn [todos filter].
  eexists. eexists. split; [|split].
  - apply (saveStorage_accepted _ _ (todos_text l));
      [apply stringify_todos | exact Hr | apply Ha].
  - apply (saveStorage_accepted _ _ (QuoteJSONString f));
      [reflexivity | exact Hr | apply Ha].
  - unfold mount. rewrite initial_cells_restored. unfold restored.
    cbn [reachable items]. rewrite Hr.
    rewrite lookup_insert_ne by discriminate.
    rewrite !lookup_insert_eq.
    rewrite JSON_parse_quoted, (JSON_parse_todos_text l Hl).
    cbn [mbind outcome_bind bind].
    apply (render_cells_typed {| todos := l; filter := VStr f |}).
Qed.

(** ** Filter changes *)

(** Going through the filters and back shows the same tasks. *)
Lemma filtered_cycle (s : State) :
  filtered (run [SetFilter (VStr (lit "active"));
                 SetFilter (VStr (lit "completed"));
                 SetFilter (VStr (lit "all"));
                 SetFilter (VStr (lit "active"))] s)
  = filtered (setFilter (VStr (lit "active")) s).
Proof. reflexivity. Qed.

(** * Further properties of the store *)

(** ** [deleteTodo] *)

Lemma filter_idempotent {A} (p : A -> bool) (l : list A) :
  List.filter p (List.filter p l) = List.filter p l.
Proof.
  apply filter_all, forallb_forall. intros x Hx. now apply filter_In in Hx.
Qed.


(** X1: [deleteTodo] removes exactly the tasks with the given id: what is
    left is the list without them, the other tasks unmodified and in their
    order, and the filter as it was; an id that no task has leaves the state
    as it is, and deleting twice is deleting once. *)
Theorem deleteTodo_removes (id : jsstring) (s : State) :
  filter (deleteTodo id s) = filter s
  /\ sublist (todos (deleteTodo id s)) (todos s)
  /\ (forall t, In t (todos (deleteTodo id s))
                <-> In t (todos s) /\ Todo.id t <> id)
  /\ ~ In id (ids (todos (deleteTodo id s)))
  /\ ((forall t, In t (todos s) -> Todo.id t <> id) -> deleteTodo id s = s)
  /\ deleteTodo id (deleteTodo id s) = deleteTodo id s.
Proof.
  unfold deleteTodo, setTodos. cbn [todos filter].
  split; [reflexivity|]. split; [apply filter_sublist|]. split; [|split; [|split]].
  - intros t. rewrite filter_In, negb_true_iff, jsstring_eqb_neq. reflexivity.
  - unfold ids. rewrite in_map_iff. intros (t & E & Ht).
    apply filter_In in Ht as [_ Ht].
    apply negb_true_iff, jsstring_eqb_neq in Ht. contradiction.
  - intros Hno. rewrite filter_all; [apply state_eta|].
    apply forallb_forall. intros t Ht.
    apply negb_true_iff, jsstring_eqb_neq. now apply Hno.
  - now rewrite filter_idempotent.
Qed.

(** ** [addTodo] and titles *)

Lemma trim_start_all_white (s : jsstring) :
  forallb is_white_space s = true -> trim_start s = [].
Proof.
  induction s as [|c r IH]; simpl; [reflexivity|].
  intros H. apply andb_true_iff in H as [-> H]. now apply IH.
Qed.

Lemma trim_empty_iff (s : jsstring) :
  trim s = [] <-> forallb is_white_space s = true.
Proof.
  split.
  - intros E. destruct (trim_split s) as (pre & post & Hs & Hpre & Hpost & _).
    rewrite E in Hs. rewrite Hs, forallb_app, Hpre. exact Hpost.
  - intros H. unfold trim. now rewrite (trim_start_all_white s H).
Qed.

(** X2: [addTodo] ignores exactly the titles made of white space only (the
    empty title among them): the state comes back unchanged for these, and
    for every other title the list is one task longer. *)
Theorem addTodo_ignores_blank (env : Readings) (title : jsstring) (s : State) :
  (addTodo env title s = s <-> forallb is_white_space title = true)
  /\ (forallb is_white_space title = false ->
      length (todos (addTodo env title s)) = S (length (todos s))).
Proof.
  rewrite <- trim_empty_iff.
  destruct (addTodo_cases env title s) as [[E H]|[E H]]; rewrite H.
  - split; [tauto|]. intros Hw. apply trim_empty_iff in E. congruence.
  - split; [|reflexivity]. split; [|contradiction].
    intros Hs. apply (f_equal (fun x => length (todos x))) in Hs.
    simpl in Hs. lia.
Qed.

Lemma step_trimmed_titles (a : action) (s : State) :
  Forall trimmed_title (todos s) -> Forall trimmed_title (todos (step a s)).
Proof.
  intros H. destruct a as [env title|id|id| |v]; cbn [step].
  - destruct (addTodo_cases env title s) as [[E ->]|[E ->]]; [exact H|].
    cbn [todos]. constructor; [|exact H].
    split; [exact E | apply trim_idempotent].
  - unfold toggleTodo, setTodos. cbn [todos]. rewrite List.Forall_forall in *.
    intros t' Ht'. apply in_map_iff in Ht' as (t & <- & Ht).
    destruct (jsstring_eqb (Todo.id t) id); [|now apply H].
    apply (H t Ht).
  - unfold deleteTodo, setTodos. cbn [todos]. rewrite List.Forall_forall in *.
    intros t Ht. apply filter_In in Ht as [Ht _]. now apply H.
  - unfold clearCompleted, setTodos. cbn [todos]. rewrite List.Forall_forall in *.
    intros t Ht. apply filter_In in Ht as [Ht _]. now apply H.
  - exact H.
Qed.

(** X3: titles stay as [addTodo] stores them: when every title of the list
    is non-empty with white space at neither end, so is every title after
    any run of actions, whatever titles were submitted. *)
Theorem titles_stay_trimmed (acts : list action) (s : State) :
  Forall trimmed_title (todos s) ->
  Forall trimmed_title (todos (run acts s)).
Proof.
  revert s. induction acts as [|a acts IH]; intros s H; [exact H|].
  apply IH. now apply step_trimmed_titles.
Qed.

Lemma titles_stay_trimmed_witness :
  Forall trimmed_title
    (todos (run [AddTodo first_readings (lit "  Buy milk  ");
                 AddTodo later_readings (lit "   ");
                 ToggleTodo (lit "m2r1bz7k-4fz8k2")] empty_state)).
Proof.
  apply (titles_stay_trimmed _ empty_state). constructor.
Defined.

(** ** Mutations and [counts] *)

Lemma counts_of_list (s : State) :
  counts s
  = {| Counts.total := Z.of_nat (length (todos s));
       Counts.active := Z.of_nat (length (todos s))
                        - Z.of_nat (count_completed (todos s));
       Counts.completed := Z.of_nat (count_completed (todos s)) |}.
Proof.
  destruct (filter_length_completed (todos s)) as (Ha & Hle & _).
  unfold counts, is_active in *. rewrite Ha. f_equal; lia.
Qed.

Lemma toggle_map_absent (id : jsstring) (l : list Todo.t) :
  ~ In id (ids l) ->
  List.map (fun t => if jsstring_eqb (Todo.id t) id then flipped t else t) l = l.
Proof.
  induction l as [|t l IH]; simpl; [reflexivity|]. intros H.
  destruct (jsstring_eqb (Todo.id t) id) eqn:E.
  - apply jsstring_eqb_eq in E. tauto.
  - rewrite IH; tauto.
Qed.

Lemma toggle_count_completed (id : jsstring) (l : list Todo.t) (t : Todo.t) :
  NoDup (ids l) -> In t l -> Todo.id t = id ->
  Z.of_nat (count_completed
    (List.map (fun t => if jsstring_eqb (Todo.id t) id then flipped t else t) l))
  = Z.of_nat (count_completed l) + (if Todo.completed t then -1 else 1).
Proof.
  induction l as [|x l IH]; [contradiction|].
  intros Hnd Hin Hid. cbn [ids List.map] in Hnd.
  apply NoDup_cons in Hnd as [Hx Hnd]. rewrite list_elem_of_In in Hx.
  cbn [List.map count_completed]. destruct Hin as [->|Hin].
  - rewrite Hid, jsstring_eqb_refl. rewrite Hid in Hx.
    rewrite (toggle_map_absent id l Hx). cbn [flipped Todo.completed].
    destruct (Todo.completed t); simpl; lia.
  - assert (Hne : jsstring_eqb (Todo.id x) id = false).
    { apply jsstring_eqb_neq. intros E. apply Hx. rewrite E, <- Hid.
      now apply in_map. }
    rewrite Hne. rewrite Nat2Z.inj_add, (IH Hnd Hin Hid). lia.
Qed.

(** X4: when the ids of the list are pairwise distinct, toggling the id of
    a task of the list moves exactly one task between the two counts: the
    total stays, and [completed] goes up by one (and [active] down by one)
    if the task was active, the other way round if it was done. *)
Theorem toggleTodo_counts (id : jsstring) (s : State) (t : Todo.t) :
  NoDup (ids (todos s)) -> In t (todos s) -> Todo.id t = id ->
  let d := if Todo.completed t then -1 else 1 in
  Counts.total (counts (toggleTodo id s)) = Counts.total (counts s)
  /\ Counts.completed (counts (toggleTodo id s)) = Counts.completed (counts s) + d
  /\ Counts.active (counts (toggleTodo id s)) = Counts.active (counts s) - d.
Proof.
  intros Hnd Hin Hid. cbv zeta. rewrite !counts_of_list.
  unfold toggleTodo, setTodos. cbn [todos Counts.total Counts.completed Counts.active].
  rewrite length_map.
  change (fun t0 : Todo.t =>
            if jsstring_eqb (Todo.id t0) id
            then {| Todo.id := Todo.id t0; Todo.title := Todo.title t0;
                    Todo.completed := negb (Todo.completed t0);
                    Todo.createdAt := Todo.createdAt t0 |}
            else t0)
    with (fun t0 => if jsstring_eqb (Todo.id t0) id then flipped t0 else t0).
  rewrite (toggle_count_completed id (todos s) t Hnd Hin Hid).
  repeat split; lia.
Qed.

Lemma toggleTodo_counts_witness :
  Counts.total (counts (toggleTodo (lit "m2r1bz7k-4fz8k2") sample_state))
  = Counts.total (counts sample_state)
  /\ Counts.completed (counts (toggleTodo (lit "m2r1bz7k-4fz8k2") sample_state))
     = Counts.completed (counts sample_state) + 1
  /\ Counts.active (counts (toggleTodo (lit "m2r1bz7k-4fz8k2") sample_state))
     = Counts.active (counts sample_state) - 1.
Proof.
  apply (toggleTodo_counts (lit "m2r1bz7k-4fz8k2") sample_state
           {| Todo.id := lit "m2r1bz7k-4fz8k2"; Todo.title := lit "write tests";
              Todo.completed := false; Todo.createdAt := 1730000000000 |}).
  - repeat constructor; rewrite list_elem_of_In; simpl; intuition discriminate.
  - right. left. reflexivity.
  - reflexivity.
Defined.

Lemma count_completed_active (l : list Todo.t) :
  count_completed (List.filter is_active l) = 0%nat.
Proof.
  unfold is_active. induction l as [|t l IH]; simpl; [reflexivity|].
  destruct (Todo.completed t) eqn:E; simpl; [exact IH|]. now rewrite E, IH.
Qed.

Lemma count_completed_zero (l : list Todo.t) :
  count_completed l = 0%nat <-> forallb is_active l = true.
Proof.
  unfold is_active. induction l as [|t l IH]; simpl; [tauto|].
  destruct (Todo.completed t); simpl; [split; [lia|discriminate]|exact IH].
Qed.

(** X5: after [clearCompleted] the counts are [completed = 0], [active] as
    before and [total] equal to the former [active]; clearing again changes
    nothing, and clearing changes nothing at all exactly when no task was
    done. *)
Theorem clearCompleted_counts (s : State) :
  Counts.completed (counts (clearCompleted s)) = 0
  /\ Counts.active (counts (clearCompleted s)) = Counts.active (counts s)
  /\ Counts.total (counts (clearCompleted s)) = Counts.active (counts s)
  /\ clearCompleted (clearCompleted s) = clearCompleted s
  /\ (clearCompleted s = s <-> Counts.completed (counts s) = 0).
Proof.
  rewrite !counts_of_list.
  destruct (filter_length_completed (todos s)) as (Ha & Hle & _).
  unfold clearCompleted, setTodos.
  cbn [todos filter Counts.total Counts.completed Counts.active].
  change (fun t : Todo.t => negb (Todo.completed t)) with is_active.
  rewrite count_completed_active, Ha, filter_idempotent.
  repeat split; try lia.
  - intros E. apply (f_equal (fun x => length (todos x))) in E.
    cbn [todos] in E. rewrite Ha in E. lia.
  - intros E. assert (E0 : count_completed (todos s) = 0%nat) by lia.
    apply count_completed_zero in E0. rewrite (filter_all _ _ E0).
    apply state_eta.
Qed.

(** ** The views and the counts *)

Lemma filter_partition_perm {A} (p : A -> bool) (l : list A) :
  Permutation (List.filter (fun x => negb (p x)) l ++ List.filter p l) l.
Proof.
  induction l as [|x l IH]; simpl; [constructor|].
  destruct (p x); simpl.
  - rewrite <- Permutation_middle. now constructor.
  - now constructor.
Qed.

(** X6: the views under ["active"] and ["completed"] split the list: put
    together they hold the tasks of the list, each as often as the list
    does, no task is in both, and their lengths are the numbers that
    [counts] gives as [active] and [completed] (the length of the view
    under ["all"] is [total]). *)
Theorem views_split_list (s : State) :
  let shown f := filtered (setFilter (VStr f) s) in
  Permutation (shown (lit "active") ++ shown (lit "completed")) (todos s)
  /\ (forall t, In t (shown (lit "active")) -> ~ In t (shown (lit "completed")))
  /\ Z.of_nat (length (shown (lit "active"))) = Counts.active (counts s)
  /\ Z.of_nat (length (shown (lit "completed"))) = Counts.completed (counts s)
  /\ Z.of_nat (length (shown (lit "all"))) = Counts.total (counts s).
Proof.
  cbv zeta. rewrite counts_of_list.
  destruct (filter_length_completed (todos s)) as (Ha & Hle & Hc).
  unfold filtered, setFilter.
  cbn [todos filter strict_eq_string Counts.total Counts.completed Counts.active].
  change (jsstring_eqb (lit "active") (lit "active")) with true.
  change (jsstring_eqb (lit "completed") (lit "active")) with false.
  change (jsstring_eqb (lit "completed") (lit "completed")) with true.
  change (jsstring_eqb (lit "all") (lit "active")) with false.
  change (jsstring_eqb (lit "all") (lit "completed")) with false.
  cbv iota.
  split; [apply filter_partition_perm|]. split; [|split; [|split]].
  - intros t H1 H2. apply filter_In in H1 as [_ H1], H2 as [_ H2].
    rewrite H2 in H1. discriminate.
  - change (fun t : Todo.t => negb (Todo.completed t)) with is_active.
    rewrite Ha. lia.
  - change (fun t : Todo.t => Todo.completed t) with Todo.completed.
    now rewrite Hc.
  - reflexivity.
Qed.

(** ** How the mutations compose *)




(** * Further properties of the persistence helpers *)

(** ** Any data through [JSON.stringify] and [JSON.parse] *)

Lemma value_nested_ind (P : value -> Prop) :
  P VUndefined -> P VNull -> (forall b, P (VBool b)) ->
  (forall m e, P (VNum m e)) -> (forall s, P (VStr s)) ->
  (forall l, Forall P l -> P (VArr l)) ->
  (forall ms, Forall (fun kv => P (snd kv)) ms -> P (VObj ms)) ->
  forall v, P v.
Proof.
  intros Hu Hn Hb Hnum Hs Ha Ho.
  fix IH 1. intros [| |b|m e|s|l|ms].
  - exact Hu.
  - exact Hn.
  - apply Hb.
  - apply Hnum.
  - apply Hs.
  - apply Ha. induction l as [|x l IHl]; constructor; [apply IH | exact IHl].
  - apply Ho. induction ms as [|[k x] ms IHms]; constructor; [apply IH | exact IHms].
Qed.

Lemma parse_value_null (f : nat) (rest : jsstring) :
  parse_value (S f) (lit "null" ++ rest) = Some (VNull, rest).
Proof.
  eval_lits. cbn [app parse_value skip_ws].
  change (is_json_ws 110%N) with false. cbv iota.
  change (110 =? 34)%N with false. change (110 =? 91)%N with false.
  change (110 =? 123)%N with false. change (110 =? 116)%N with false.
  change (110 =? 102)%N with false. change (110 =? 110)%N with true.
  eval_lits. cbn [expect]. now rewrite !N.eqb_refl.
Qed.

(** Numbers that are zero as a Number are falsy: zero itself and what is
    at most half the least positive value. *)
Example truthy_numbers :
  truthy (VNum 0 5) = false /\ truthy (VNum 1 (-400)) = false
  /\ truthy (VNum 24 (-325)) = false /\ truthy (VNum 25 (-325)) = true
  /\ truthy (VNum (-1) 0) = true.
Proof. vm_compute. repeat split. Qed.

Lemma has_key_In (k : jsstring) (ms : list (jsstring * value)) :
  has_key k ms = true <-> In k (List.map fst ms).
Proof.
  unfold has_key. induction ms as [|[k' v'] ms IH]; cbn [existsb List.map fst In].
  - split; [discriminate | contradiction].
  - rewrite orb_true_iff, IH, jsstring_eqb_eq. reflexivity.
Qed.

Lemma insert_key_last (k : jsstring) (v : value)
    (acc : list (jsstring * value)) :
  forallb (fun k' => negb (key_before k k')) (List.map fst acc) = true ->
  insert_key k v acc = acc ++ [(k, v)].
Proof.
  induction acc as [|[k' v'] acc IH]; cbn [List.map fst forallb insert_key app];
    [reflexivity|].
  intros H. apply andb_true_iff in H as [Hk H].
  apply negb_true_iff in Hk. rewrite Hk, IH by exact H. reflexivity.
Qed.

(** A new key that comes before none of the keys that are there is put at
    the end. *)
Lemma define_property_new (k : jsstring) (v : value)
    (acc : list (jsstring * value)) :
  ~ In k (List.map fst acc) ->
  forallb (fun k' => negb (key_before k k')) (List.map fst acc) = true ->
  define_property k v acc = acc ++ [(k, v)].
Proof.
  intros Hin Hord. unfold define_property.
  destruct (has_key k acc) eqn:E; [apply has_key_In in E; contradiction|].
  now apply insert_key_last.
Qed.

Lemma key_ordered_before (a : list jsstring) (k : jsstring) (r : list jsstring) :
  key_ordered (a ++ k :: r) = true ->
  forallb (fun k' => negb (key_before k k')) a = true.
Proof.
  induction a as [|x a IH]; cbn [app key_ordered forallb]; [reflexivity|].
  intros H. apply andb_true_iff in H as [Hx H].
  rewrite forallb_app in Hx. apply andb_true_iff in Hx as [_ Hx].
  cbn [forallb] in Hx. apply andb_true_iff in Hx as [Hx _].
  rewrite Hx. now apply IH.
Qed.

(** Members under distinct keys, written in the order of the own keys of
    an object, are the members of the object that is built from them. *)
Lemma make_object_distinct (ms : list (jsstring * value)) :
  List.NoDup (List.map fst ms) -> key_ordered (List.map fst ms) = true ->
  make_object ms = VObj ms.
Proof.
  unfold make_object. intros H Ho. f_equal.
  assert (G : forall acc, List.NoDup (List.map fst (acc ++ ms)) ->
            key_ordered (List.map fst (acc ++ ms)) = true ->
            fold_left (fun a kv => define_property (fst kv) (snd kv) a) ms acc
            = acc ++ ms).
  { clear H Ho. induction ms as [|[k v] ms IH]; intros acc H Ho; simpl.
    - now rewrite app_nil_r.
    - rewrite List.map_app in H, Ho. cbn [List.map fst] in H, Ho.
      rewrite define_property_new.
      + rewrite IH; rewrite <- app_assoc; [reflexivity | |];
          rewrite List.map_app; assumption.
      + apply List.NoDup_remove_2 in H. intros Hin. apply H.
        apply in_or_app. now left.
      + exact (key_ordered_before _ _ _ Ho). }
  now apply (G []).
Qed.

Lemma set_value_keys (k : jsstring) (v : value) (ms : list (jsstring * value)) :
  List.map fst (set_value k v ms) = List.map fst ms.
Proof.
  induction ms as [|[k' v'] ms IH]; cbn [set_value List.map fst]; [reflexivity|].
  destruct (jsstring_eqb k' k) eqn:E; cbn [List.map fst].
  - apply jsstring_eqb_eq in E. now rewrite E.
  - now rewrite IH.
Qed.

Lemma key_before_asym (k x : jsstring) :
  key_before k x = true -> key_before x k = false.
Proof.
  unfold key_before.
  destruct (array_index k) as [n|], (array_index x) as [m|]; try congruence.
  rewrite N.ltb_lt, N.ltb_ge. lia.
Qed.

Lemma key_before_later (k x y : jsstring) :
  key_before k x = true -> key_before y x = false -> key_before y k = false.
Proof.
  unfold key_before.
  destruct (array_index k) as [n|], (array_index x) as [m|],
    (array_index y) as [j|]; try congruence.
  rewrite !N.ltb_lt, !N.ltb_ge. lia.
Qed.

Lemma insert_key_keys (k : jsstring) (v : value) (ms : list (jsstring * value)) :
  exists a b,
    List.map fst ms = a ++ b
    /\ List.map fst (insert_key k v ms) = a ++ k :: b
    /\ forallb (fun k' => negb (key_before k k')) a = true
    /\ match b with [] => True | x :: _ => key_before k x = true end.
Proof.
  induction ms as [|[k' v'] ms (a & b & E1 & E2 & Ha & Hb)];
    cbn [insert_key List.map fst].
  - exists [], []. auto.
  - destruct (key_before k k') eqn:E.
    + exists [], (k' :: List.map fst ms). cbn [List.map fst app forallb]. auto.
    + exists (k' :: a), b. cbn [List.map fst app forallb].
      rewrite E1, E2, E, Ha. auto.
Qed.

Lemma key_ordered_app (a b : list jsstring) :
  key_ordered (a ++ b) = true
  <-> key_ordered a = true /\ key_ordered b = true
      /\ (forall x y, In x a -> In y b -> key_before y x = false).
Proof.
  induction a as [|z a IH]; cbn [app key_ordered].
  - split; [intros H; repeat split; auto; intros x y [] | tauto].
  - rewrite !andb_true_iff, IH, forallb_app, andb_true_iff, !forallb_forall.
    split.
    + intros [[H1 H2] (H3 & H4 & H5)]. repeat split; auto.
      intros x y [<-|Hx] Hy; [|now apply H5].
      apply negb_true_iff. now apply H2.
    + intros ([H1 H2] & H3 & H4). repeat split; auto.
      * intros y Hy. apply negb_true_iff. apply H4; [now left | exact Hy].
      * intros x y Hx Hy. apply H4; [now right | exact Hy].
Qed.

(** [define_property] keeps the keys distinct and in the order of the own
    keys of an object. *)
Lemma define_property_ordered (k : jsstring) (v : value)
    (ms : list (jsstring * value)) :
  List.NoDup (List.map fst ms) -> key_ordered (List.map fst ms) = true ->
  List.NoDup (List.map fst (define_property k v ms))
  /\ key_ordered (List.map fst (define_property k v ms)) = true.
Proof.
  intros Hnd Ho. unfold define_property. destruct (has_key k ms) eqn:Hk.
  - now rewrite set_value_keys.
  - assert (Hin : ~ In k (List.map fst ms)).
    { intros H. apply has_key_In in H. congruence. }
    destruct (insert_key_keys k v ms) as (a & b & E1 & E2 & Ha & Hb).
    rewrite E2. rewrite E1 in Hnd, Ho, Hin. split.
    + apply List.NoDup_Add with (a := k) (l := a ++ b);
        [apply List.Add_app | split; assumption].
    + apply key_ordered_app in Ho as (Hoa & Hob & Hab).
      apply key_ordered_app. split; [exact Hoa|]. split.
      * cbn [key_ordered]. rewrite Hob, andb_true_r.
        apply forallb_forall. intros y Hy. apply negb_true_iff.
        destruct b as [|x b]; [contradiction|].
        destruct Hy as [<-|Hy]; [now apply key_before_asym|].
        apply (key_before_later k x y Hb).
        cbn [key_ordered] in Hob. apply andb_true_iff in Hob as [Hx _].
        rewrite forallb_forall in Hx. apply negb_true_iff. now apply Hx.
      * intros x y Hx [<-|Hy]; [|now apply Hab].
        rewrite forallb_forall in Ha. apply negb_true_iff. now apply Ha.
Qed.

(** The members of the object that [JSON.parse] builds from the members it
    has read are under distinct keys, in the order of the own keys of an
    object, whatever the order and the repetitions in the text. *)
Lemma make_object_ordered (ms : list (jsstring * value)) :
  exists ms', make_object ms = VObj ms'
              /\ List.NoDup (List.map fst ms')
              /\ key_ordered (List.map fst ms') = true.
Proof.
  unfold make_object. eexists. split; [reflexivity|].
  assert (G : forall acc,
            List.NoDup (List.map fst acc) -> key_ordered (List.map fst acc) = true ->
            let r := fold_left (fun a kv => define_property (fst kv) (snd kv) a) ms acc in
            List.NoDup (List.map fst r) /\ key_ordered (List.map fst r) = true).
  { induction ms as [|[k v] ms IH]; intros acc Hnd Ho; cbn [fold_left]; [auto|].
    destruct (define_property_ordered k v acc Hnd Ho) as [H1 H2].
    now apply IH. }
  apply (G []); [constructor | reflexivity].
Qed.

Lemma storable_array (l : list value) :
  storable (VArr l) <-> Forall storable l.
Proof.
  induction l as [|x l IH]; cbn [storable]; [split; auto|].
  cbn [storable] in IH. rewrite List.Forall_cons_iff, <- IH. reflexivity.
Qed.

Lemma storable_object (ms : list (jsstring * value)) :
  storable (VObj ms) ->
  List.NoDup (List.map fst ms) /\ key_ordered (List.map fst ms) = true
  /\ Forall (fun kv => storable (snd kv)) ms.
Proof.
  cbn [storable]. intros (Hnd & Ho & H). split; [exact Hnd|].
  split; [exact Ho|]. clear Hnd Ho.
  induction ms as [|[k x] ms IH]; constructor; [apply H | apply IH, H].
Qed.

Lemma ends_number_comma (rest : jsstring) : ends_number (0x2C%N :: rest).
Proof. repeat split; discriminate. Qed.

Lemma ends_number_bracket (rest : jsstring) : ends_number (0x5D%N :: rest).
Proof. repeat split; discriminate. Qed.

Lemma starts_value_app (a b : jsstring) : starts_value a -> starts_value (a ++ b).
Proof. destruct a; [contradiction | exact (fun H => H)]. Qed.

(** The texts of one or more values that read back, separated by commas
    and closed by a bracket, are read back as the values. *)
Lemma parse_elements_read_back (x : value) (l : list value) (rest : jsstring) :
  Forall reads_back (x :: l) ->
  exists f0, forall f, (f0 <= f)%nat ->
    parse_elements f (join_comma (List.map text_of (x :: l)) ++ 0x5D%N :: rest)
    = Some (x :: l, rest).
Proof.
  revert x. induction l as [|y l IH]; intros x Hall;
    apply List.Forall_cons_iff in Hall as [(_ & _ & Hx) Hl].
  - destruct (Hx (0x5D%N :: rest) (ends_number_bracket rest)) as [f0 Hf0].
    exists (S f0). intros [|f] Hf; [lia|].
    cbn [List.map join_comma concat]. rewrite app_nil_r.
    apply parse_elements_last, Hf0. lia.
  - destruct (IH y Hl) as [f1 Hf1].
    cbn [List.map]. rewrite join_comma_cons by discriminate.
    rewrite <- app_assoc. cbn [app].
    set (more := join_comma (text_of y :: List.map text_of l) ++ 93%N :: rest) in *.
    destruct (Hx (0x2C%N :: more) (ends_number_comma more)) as [f0 Hf0].
    exists (S (Nat.max f0 f1)). intros [|f] Hf; [lia|].
    apply parse_elements_more; [apply Hf0 | apply Hf1]; lia.
Qed.

(** The same for the members of an object, closed by a brace. *)
Lemma parse_members_read_back (kv : jsstring * value)
    (ms : list (jsstring * value)) (rest : jsstring) :
  Forall (fun kv => reads_back (snd kv)) (kv :: ms) ->
  exists f0, forall f, (f0 <= f)%nat ->
    parse_members f (join_comma (List.map member_text (kv :: ms)) ++ 0x7D%N :: rest)
    = Some (kv :: ms, rest).
Proof.
  revert kv. induction ms as [|kv' ms IH]; intros [k x] Hall;
    apply List.Forall_cons_iff in Hall as [(_ & _ & Hx) Hl]; cbn [snd] in Hx.
  - destruct (Hx (0x7D%N :: rest) (ends_number_brace rest)) as [f0 Hf0].
    exists (S f0). intros [|f] Hf; [lia|].
    cbn [List.map join_comma concat]. rewrite app_nil_r.
    unfold member_text. cbn [fst snd]. change (lit ":") with [0x3A%N].
    rewrite <- !app_assoc. cbn [app].
    apply parse_members_last, Hf0. lia.
  - destruct (IH kv' Hl) as [f1 Hf1].
    cbn [List.map]. rewrite join_comma_cons by discriminate.
    set (more := join_comma (member_text kv' :: List.map member_text ms)
                 ++ 125%N :: rest) in *.
    unfold member_text at 1. cbn [fst snd]. change (lit ":") with [0x3A%N].
    rewrite <- !app_assoc. cbn [app]. fold more.
    destruct (Hx (0x2C%N :: more) (ends_number_comma more)) as [f0 Hf0].
    exists (S (Nat.max f0 f1)). intros [|f] Hf; [lia|].
    apply parse_members_more; [apply Hf0 | apply Hf1]; lia.
Qed.

Lemma serialize_array (l : list value) :
  SerializeJSONProperty (VArr l)
  = Some (lit "[" ++ join_comma (List.map text_of l) ++ lit "]").
Proof. reflexivity. Qed.

Lemma serialize_object (ms : list (jsstring * value)) :
  Forall (fun kv => SerializeJSONProperty (snd kv) = Some (text_of (snd kv))) ms ->
  SerializeJSONProperty (VObj ms)
  = Some (lit "{" ++ join_comma (List.map member_text ms) ++ lit "}").
Proof.
  intros H. cbn [SerializeJSONProperty]. do 4 f_equal.
  induction H as [|[k x] ms Hx _ IH]; [reflexivity|].
  cbn [snd] in Hx. cbn [List.map]. rewrite <- IH. unfold member_text.
  cbn [fst snd]. unfold text_of. rewrite Hx. reflexivity.
Qed.

Lemma starts_value_skip_ws (text rest : jsstring) :
  starts_value text ->
  exists c r, skip_ws (text ++ rest) = c :: r /\ text ++ rest = c :: r
              /\ c <> 0x5D%N.
Proof.
  destruct text as [|c t]; [contradiction|]. intros [Hws Hc].
  exists c, (t ++ rest). cbn [app skip_ws]. now rewrite Hws.
Qed.

(** Every storable value is written as text and read back. *)
Lemma storable_reads_back (v : value) : storable v -> reads_back v.
Proof.
  induction v as [| |b|m e|s|l IH|ms IH] using value_nested_ind; intros Hst.
  - contradiction.
  - split; [reflexivity|]. split; [split; [reflexivity | discriminate]|].
    intros rest _. exists 1%nat. intros [|f] Hf; [lia|]. apply parse_value_null.
  - split; [reflexivity|]. split; [destruct b; (split; [reflexivity | discriminate])|].
    intros rest _. exists 1%nat. intros [|f] Hf; [lia|]. apply parse_value_bool.
  - destruct Hst as [-> Hm].
    assert (Hlt : Z.abs m < 10 ^ 21).
    { eapply Z.le_lt_trans; [exact Hm | reflexivity]. }
    split; [reflexivity|]. split.
    + unfold text_of. cbn [SerializeJSONProperty].
      destruct (number_toString_head m Hlt) as (c & r & -> & [->|Hd]).
      * split; [reflexivity | discriminate].
      * unfold is_digit in Hd. apply andb_true_iff in Hd as [H1 H2].
        apply N.leb_le in H1, H2. split; [|lia].
        unfold is_json_ws. repeat (apply orb_false_iff; split);
          apply N.eqb_neq; lia.
    + intros rest Hrest. exists 1%nat. intros [|f] Hf; [lia|].
      now apply parse_value_number.
  - split; [reflexivity|]. split; [split; [reflexivity | discriminate]|].
    intros rest _. exists 1%nat. intros [|f] Hf; [lia|]. apply parse_value_string.
  - apply storable_array in Hst.
    assert (Hall : Forall reads_back l).
    { rewrite List.Forall_forall in *. intros x Hx. apply IH; auto. }
    split; [apply serialize_array|]. split; [split; [reflexivity | discriminate]|].
    intros rest _. unfold text_of. rewrite serialize_array.
    change (lit "[") with [0x5B%N]. change (lit "]") with [0x5D%N].
    rewrite <- !app_assoc. cbn [app].
    destruct l as [|x l].
    + exists 1%nat. intros [|f] Hf; [lia|]. reflexivity.
    + destruct (parse_elements_read_back x l rest Hall) as [f0 Hf0].
      exists (S f0). intros [|f] Hf; [lia|].
      cbn [parse_value skip_ws].
      change (is_json_ws 91%N) with false. cbv iota.
      change (91 =? 34)%N with false. change (91 =? 91)%N with true. cbv iota.
      assert (Hsv : starts_value (join_comma (List.map text_of (x :: l)))).
      { cbn [List.map join_comma]. apply starts_value_app.
        apply List.Forall_cons_iff in Hall as [(_ & Hs & _) _]. exact Hs. }
      destruct (starts_value_skip_ws _ (93%N :: rest) Hsv) as (c & r & E1 & E2 & Hc).
      rewrite E1. apply N.eqb_neq in Hc. rewrite Hc.
      rewrite Hf0 by lia. reflexivity.
  - apply storable_object in Hst as (Hnd & Hord & Hst).
    assert (Hall : Forall (fun kv => reads_back (snd kv)) ms).
    { rewrite List.Forall_forall in *. intros x Hx. apply IH; auto. }
    assert (Hser : SerializeJSONProperty (VObj ms)
                   = Some (lit "{" ++ join_comma (List.map member_text ms) ++ lit "}")).
    { apply serialize_object. rewrite List.Forall_forall in *.
      intros kv Hkv. now apply Hall. }
    unfold reads_back, text_of. rewrite Hser.
    split; [reflexivity|]. split; [split; [reflexivity | discriminate]|].
    intros rest _.
    change (lit "{") with [0x7B%N]. change (lit "}") with [0x7D%N].
    rewrite <- !app_assoc. cbn [app].
    destruct ms as [|kv ms].
    + exists 1%nat. intros [|f] Hf; [lia|]. reflexivity.
    + destruct (parse_members_read_back kv ms rest Hall) as [f0 Hf0].
      exists (S f0). intros [|f] Hf; [lia|].
      cbn [parse_value skip_ws].
      change (is_json_ws 123%N) with false. cbv iota.
      change (123 =? 34)%N with false. change (123 =? 91)%N with false.
      change (123 =? 123)%N with true. cbv iota.
      rewrite Hf0 by lia. rewrite (make_object_distinct _ Hnd Hord).
      cbn [List.map join_comma]. unfold member_text at 1, QuoteJSONString at 1.
      rewrite <- !app_assoc. cbn [app skip_ws].
      change (is_json_ws 34%N) with false. cbv iota.
      change (34 =? 125)%N with false. reflexivity.
Qed.

Lemma JSON_parse_storable (v : value) :
  storable v ->
  exists text, JSON_stringify v = Some text /\ text <> []
               /\ JSON_parse text = Return v.
Proof.
  intros Hst. destruct (storable_reads_back v Hst) as (Hser & Hsv & Hp).
  exists (text_of v). split; [exact Hser|]. split.
  { destruct (text_of v); [contradiction | discriminate]. }
  destruct (Hp [] I) as [f0 Hf0]. rewrite app_nil_r in Hf0.
  unfold JSON_parse.
  rewrite <- (JSON_parse_fuel (text_of v) (Nat.max f0 (2 * length (text_of v) + 2)))
    by lia.
  rewrite Hf0 by lia. reflexivity.
Qed.

(** ** [saveStorage] and [loadStorage] *)


(** The members of an object come back in the order of its own keys: array
    indices first, ascending, then the other keys as first written; a
    repeated key keeps the place of its first occurrence and the value of
    its last. *)
Example parse_orders_keys :
  JSON_parse (json_lit "{'b':1,'10':2,'2':3,'b':4,'01':5}")
  = Return (VObj [(lit "2", VNum 3 0); (lit "10", VNum 2 0);
                  (lit "b", VNum 4 0); (lit "01", VNum 5 0)]).
Proof. vm_compute. reflexivity. Qed.

(** X9: a value saved under a key is the value loaded from it: for every
    storable data (null, booleans, strings, integers that a number holds
    exactly, arrays of such data, and objects of such data under any
    distinct keys, the members in the order of the own keys of an object)
    and a storage that takes the write, [loadStorage] after [saveStorage]
    returns the data itself, never the fallback, also when the data is
    falsy. *)
Theorem storage_roundtrip (key : jsstring) (data fallback : value) (st : Storage) :
  storable data ->
  reachable st = true ->
  (forall text, accepts st key text = true) ->
  exists st',
    saveStorage key data st = Return st'
    /\ loadStorage key fallback st' = Return data.
Proof.
  intros Hst Hr Ha.
  destruct (JSON_parse_storable data Hst) as (text & Hs & Hne & Hp).
  eexists. split.
  - apply (saveStorage_accepted key data text); [exact Hs | exact Hr | apply Ha].
  - rewrite loadStorage_restored. unfold restored. cbn [reachable items].
    now rewrite Hr, lookup_insert_eq, Hp.
Qed.

Lemma storage_roundtrip_witness :
  exists st',
    saveStorage (lit "prefs") sample_data (open_storage ∅) = Return st'
    /\ loadStorage (lit "prefs") VNull st' = Return sample_data.
Proof.
  apply (storage_roundtrip (lit "prefs") sample_data VNull (open_storage ∅)).
  - cbn. repeat split; try lia; try (now right); try (now left).
    repeat constructor; simpl; intuition discriminate.
  - reflexivity.
  - reflexivity.
Defined.

Example falsy_data_roundtrip :
  List.map (fun v => text_of v) [VNum 0 0; VBool false; VNull; VStr []]
  = [lit "0"; lit "false"; lit "null"; [34%N; 34%N]].
Proof. reflexivity. Qed.

(** ** The effects of [useTodos] *)

Lemma JSON_parse_text_of (v : value) :
  storable v -> JSON_stringify v = Some (text_of v) /\ JSON_parse (text_of v) = Return v.
Proof.
  intros Hst. destruct (JSON_parse_storable v Hst) as (text & Hs & _ & Hp).
  unfold text_of. unfold JSON_stringify in Hs. rewrite Hs. auto.
Qed.

(** X10: what the two effects save is what the next start restores: for a
    state whose timestamps are time values and whose filter is storable,
    and a storage that takes the writes, saving the list and the filter and
    then mounting the hook again gives the views of that very state. *)
Theorem restart_restores (s : State) (st : Storage) :
  Forall (fun t => is_time_value (Todo.createdAt t)) (todos s) ->
  storable (filter s) ->
  reachable st = true -> (forall k text, accepts st k text = true) ->
  exists st1 st2,
    persist_todos s st = Return st1
    /\ persist_filter s st1 = Return st2
    /\ mount st2 = Return (view_value (useTodos s)).
Proof.
  intros Hl Hf Hr Ha. unfold persist_todos, persist_filter.
  destruct (JSON_parse_text_of (filter s) Hf) as [Hs Hp].
  eexists. eexists. split; [|split].
  - apply (saveStorage_accepted _ _ (todos_text (todos s)));
      [apply stringify_todos | exact Hr | apply Ha].
  - apply (saveStorage_accepted _ _ (text_of (filter s)));
      [exact Hs | exact Hr | apply Ha].
  - unfold mount. rewrite initial_cells_restored. unfold restored.
    cbn [reachable items]. rewrite Hr.
    rewrite lookup_insert_ne by discriminate.
    rewrite !lookup_insert_eq.
    rewrite Hp, (JSON_parse_todos_text _ Hl).
    cbn [mbind outcome_bind bind].
    rewrite <- (render_cells_typed s). reflexivity.
Qed.

Lemma restart_restores_witness :
  exists st1 st2,
    persist_todos sample_state (open_storage ∅) = Return st1
    /\ persist_filter sample_state st1 = Return st2
    /\ mount st2 = Return (view_value (useTodos sample_state)).
Proof.
  apply (restart_restores sample_state (open_storage ∅)).
  - repeat constructor; unfold is_time_value; simpl; lia.
  - exact I.
  - reflexivity.
  - reflexivity.
Defined.

Lemma saveStorage_reachable (key : jsstring) (data : value) (st st' : Storage) :
  saveStorage key data st = Return st' -> reachable st' = reachable st.
Proof.
  unfold saveStorage, setItem. intros H.
  destruct (reachable st) eqn:Hr; [destruct (accepts st key _)|]; simpl in H;
    injection H as <-; auto.
Qed.

Lemma render_empty_list (f : value) :
  exists v, render_cells {| cell_todos := VArr []; cell_filter := f |} = Return v.
Proof.
  apply render_cells_returns. exists []. split; [reflexivity | constructor].
Qed.

(** X11: the first render repairs the stored list: when the list key is
    absent or holds text that does not parse, and the storage takes writes,
    the hook starts with the empty list and its effects leave the text [[]]
    under the list key, whatever the filter key holds. *)
Theorem mount_effects_repair (m : gmap (list N) (list N)) :
  (forall text, m !! STORAGE_KEY = Some text -> exists e, JSON_parse text = Throw e) ->
  exists st',
    mount_effects (open_storage m) = Return st'
    /\ items st' !! STORAGE_KEY = Some (lit "[]")
    /\ loadStorage STORAGE_KEY VNull st' = Return (VArr []).
Proof.
  intros Hbad. unfold mount_effects. rewrite initial_cells_restored.
  cbn [mbind outcome_bind bind].
  assert (E : restored STORAGE_KEY (VArr []) (open_storage m) = VArr []).
  { unfold restored, open_storage. cbn [reachable items].
    destruct (m !! STORAGE_KEY) as [text|] eqn:Em; [|reflexivity].
    destruct (Hbad text eq_refl) as [e ->]. reflexivity. }
  rewrite E. cbn [cell_todos cell_filter].
  set (f := restored STORAGE_FILTER_KEY (VStr DEFAULT_FILTER) (open_storage m)).
  destruct (render_empty_list f) as [v ->].
  rewrite (saveStorage_accepted STORAGE_KEY (VArr []) (lit "[]") (open_storage m))
    by reflexivity.
  cbn [mbind outcome_bind bind].
  match goal with |- context [saveStorage _ _ ?s1] => set (st1 := s1) end.
  destruct (saveStorage_total STORAGE_FILTER_KEY f st1) as [st' Hsave].
  pose proof (saveStorage_reachable _ _ _ _ Hsave) as Hr'.
  pose proof (saveStorage_other_key _ STORAGE_KEY _ _ _ Hsave) as Hother.
  rewrite Hsave. exists st'. split; [reflexivity|].
  assert (Hk : items st' !! STORAGE_KEY = Some (lit "[]")).
  { rewrite Hother by discriminate. subst st1. cbn [items open_storage].
    apply lookup_insert_eq. }
  split; [exact Hk|].
  rewrite loadStorage_restored. unfold restored. rewrite Hr', Hk. reflexivity.
Qed.

Lemma mount_effects_repair_witness :
  exists st',
    mount_effects (open_storage {[ STORAGE_KEY := json_lit "[{'id':" ]}) = Return st'
    /\ items st' !! STORAGE_KEY = Some (lit "[]")
    /\ loadStorage STORAGE_KEY VNull st' = Return (VArr []).
Proof.
  apply (mount_effects_repair {[ STORAGE_KEY := json_lit "[{'id':" ]}).
  intros text H. rewrite lookup_singleton_eq in H. injection H as <-.
  exists SyntaxError. reflexivity.
Defined.

(** ** [uid] *)

(** X12: two ids are equal exactly when they were built from the same
    clock reading and from random texts with the same third to eighth
    characters; the random part of an id is at most six characters long
    (none when the random text is shorter than three characters). *)
Theorem uid_equal_iff (now now' : Z) (random36 random36' : jsstring) :
  0 <= now -> 0 <= now' ->
  (uid now random36 = uid now' random36'
   <-> now = now' /\ slice 2 8 random36 = slice 2 8 random36')
  /\ uid now random36 = int_toString 36 now ++ lit "-" ++ slice 2 8 random36
  /\ length (slice 2 8 random36) = Nat.min 6 (length random36 - 2).
Proof.
  intros Hn Hn'. split; [split|split].
  - now apply uid_injective.
  - intros [-> E]. unfold uid. now rewrite E.
  - reflexivity.
  - unfold slice. now rewrite length_firstn, length_skipn.
Qed.

Lemma uid_equal_iff_witness :
  (uid 1730000000000 (lit "0.4fz8k2p1abc") = uid 1730000000001 (lit "0")
   <-> 1730000000000 = 1730000000001
       /\ slice 2 8 (lit "0.4fz8k2p1abc") = slice 2 8 (lit "0"))
  /\ uid 1730000000000 (lit "0.4fz8k2p1abc")
     = int_toString 36 1730000000000 ++ lit "-" ++ slice 2 8 (lit "0.4fz8k2p1abc")
  /\ length (slice 2 8 (lit "0.4fz8k2p1abc"))
     = Nat.min 6 (length (lit "0.4fz8k2p1abc") - 2).
Proof.
  apply (uid_equal_iff 1730000000000 1730000000001); lia.
Defined.

(** * The components *)

Section ComponentProperties.

Variable toLocaleTimeString : Z -> list N.
Variable toLocaleString : Z -> list N.
Variable REACT_APP_NODE_ENV : option (list N).

Local Abbreviation item :=
  (fun todo : Todo.t =>
     TodoItem toLocaleTimeString toLocaleString (Todo.id todo) todo
       (HStore (ToggleTodo (Todo.id todo))) (HStore (DeleteTodo (Todo.id todo)))).

Local Abbreviation render := (App toLocaleTimeString toLocaleString REACT_APP_NODE_ENV).

Lemma handlers_items (l : list Todo.t) :
  flat_map own_handlers (flat_map nodes (List.map item l))
  = flat_map (fun t => [HStore (ToggleTodo (Todo.id t));
                        HStore (DeleteTodo (Todo.id t))]) l.
Proof.
  induction l as [|t l IH]; [reflexivity|].
  cbn [List.map flat_map]. rewrite flat_map_app, IH. reflexivity.
Qed.

Lemma keys_items (l : list Todo.t) :
  flat_map own_key (flat_map nodes (List.map item l)) = ids l.
Proof.
  induction l as [|t l IH]; [reflexivity|].
  cbn [List.map flat_map ids]. rewrite flat_map_app, IH. reflexivity.
Qed.

Lemma tabs_items (l : list Todo.t) :
  flat_map own_tab (flat_map nodes (List.map item l)) = [].
Proof.
  induction l as [|t l IH]; [reflexivity|].
  cbn [List.map flat_map]. rewrite flat_map_app, IH. reflexivity.
Qed.

(** The handlers of the tree, in document order. *)
Lemma handlers_App (s : State) (i : list N) :
  handlers_of (render s i)
  = [HSubmit; HInput;
     HStore (SetFilter (VStr (lit "all")));
     HStore (SetFilter (VStr (lit "active")));
     HStore (SetFilter (VStr (lit "completed")))]
    ++ (if 0 <? Counts.completed (counts s) then [HStore ClearCompleted] else [])
    ++ flat_map (fun t => [HStore (ToggleTodo (Todo.id t));
                           HStore (DeleteTodo (Todo.id t))]) (filtered s).
Proof.
  unfold handlers_of, App. cbn [useTodos view_filtered view_filter view_counts].
  destruct (0 <? Counts.completed (counts s));
    destruct (length (filtered s) =? 0)%nat;
    cbn [nodes flat_map el FilterButton List.app own_handlers on attr attr_value
         flag snd text];
    repeat rewrite flat_map_app;
    cbn [nodes flat_map List.app own_handlers snd];
    rewrite ?handlers_items;
    cbn [List.app snd attr attr_value on flag]; rewrite ?app_nil_r; reflexivity.
Qed.

Lemma classes_items (l : list Todo.t) :
  ~ In (lit "empty")
      (flat_map own_class (flat_map nodes (List.map item l))).
Proof.
  induction l as [|t l IH]; [intros []|].
  cbn [List.map flat_map]. rewrite flat_map_app, in_app_iff.
  intros [H|H]; [|contradiction].
  cbn in H. destruct (Todo.completed t); cbn in H; intuition discriminate.
Qed.

Lemma values_items (l : list Todo.t) :
  flat_map own_value (flat_map nodes (List.map item l)) = [].
Proof.
  induction l as [|t l IH]; [reflexivity|].
  cbn [List.map flat_map]. rewrite flat_map_app, IH. reflexivity.
Qed.

(** The keys of the tree are those of the list items. *)
Lemma keys_App (s : State) (i : list N) :
  keys_of (render s i) = ids (filtered s).
Proof.
  unfold keys_of, App. cbn [useTodos view_filtered view_filter view_counts].
  destruct (0 <? Counts.completed (counts s));
    destruct (length (filtered s) =? 0)%nat;
    cbn [nodes flat_map el FilterButton List.app own_key on attr attr_value
         flag snd text];
    repeat rewrite flat_map_app;
    cbn [nodes flat_map List.app own_key snd];
    rewrite ?keys_items; rewrite ?app_nil_r; reflexivity.
Qed.

Lemma tabs_App (s : State) (i : list N) :
  tabs_of (render s i)
  = [(strict_eq_string (filter s) (lit "all"),
      HStore (SetFilter (VStr (lit "all"))));
     (strict_eq_string (filter s) (lit "active"),
      HStore (SetFilter (VStr (lit "active"))));
     (strict_eq_string (filter s) (lit "completed"),
      HStore (SetFilter (VStr (lit "completed"))))].
Proof.
  unfold tabs_of, App. cbn [useTodos view_filtered view_filter view_counts].
  destruct (0 <? Counts.completed (counts s));
    destruct (length (filtered s) =? 0)%nat;
    cbn [nodes flat_map el FilterButton List.app on attr attr_value flag text];
    repeat rewrite flat_map_app;
    cbn [nodes flat_map List.app];
    rewrite ?tabs_items; rewrite ?app_nil_r; reflexivity.
Qed.

Lemma values_App (s : State) (i : list N) : values_of (render s i) = [i].
Proof.
  unfold values_of, App. cbn [useTodos view_filtered view_filter view_counts].
  destruct (0 <? Counts.completed (counts s));
    destruct (length (filtered s) =? 0)%nat;
    cbn [nodes flat_map el FilterButton List.app on attr attr_value flag text];
    repeat rewrite flat_map_app;
    cbn [nodes flat_map List.app];
    rewrite ?values_items; rewrite ?app_nil_r; reflexivity.
Qed.

Lemma classes_App_eq (s : State) (i : list N) :
  classes_of (render s i)
  = [lit "ocean-app"; lit "ocean-header"; lit "container"; lit "brand";
     lit "logo"; lit "titles"; lit "title"; lit "subtitle"; lit "ocean-main";
     lit "container"; lit "todo-card"; lit "todo-input-row"; lit "todo-input";
     lit "btn primary"; lit "controls"; lit "filters";
     lit "chip " ++ (if strict_eq_string (filter s) (lit "all")
                     then lit "active" else empty_string);
     lit "chip " ++ (if strict_eq_string (filter s) (lit "active")
                     then lit "active" else empty_string);
     lit "chip " ++ (if strict_eq_string (filter s) (lit "completed")
                     then lit "active" else empty_string);
     lit "meta"; lit "count"]
    ++ (if 0 <? Counts.completed (counts s) then [lit "btn ghost danger"] else [])
    ++ [lit "todo-list"]
    ++ (if (length (filtered s) =? 0)%nat then [lit "empty"] else [])
    ++ flat_map own_class (flat_map nodes (List.map item (filtered s)))
    ++ [lit "footer-note"; lit "env"; lit "hint"].
Proof.
  unfold classes_of, App. cbn [useTodos view_filtered view_filter view_counts].
  destruct (0 <? Counts.completed (counts s));
    destruct (length (filtered s) =? 0)%nat;
    cbn [nodes flat_map el FilterButton List.app on attr attr_value flag text];
    repeat rewrite flat_map_app;
    cbn [nodes flat_map List.app];
    rewrite ?app_nil_r; reflexivity.
Qed.

(** The empty note is in the tree exactly when the view is empty. *)
Lemma classes_App (s : State) (i : list N) :
  In (lit "empty") (classes_of (render s i)) <-> filtered s = [].
Proof.
  rewrite classes_App_eq, !in_app_iff.
  assert (Hlen : (length (filtered s) =? 0)%nat = true <-> filtered s = []).
  { rewrite Nat.eqb_eq. apply length_zero_iff_nil. }
  pose proof (classes_items (filtered s)) as Hitems.
  split.
  - intros [H|[H|[H|[H|[H|H]]]]].
    + exfalso. revert H.
      destruct (strict_eq_string (filter s) (lit "all"));
        destruct (strict_eq_string (filter s) (lit "active"));
        destruct (strict_eq_string (filter s) (lit "completed"));
        vm_compute; intuition discriminate.
    + exfalso. destruct (0 <? Counts.completed (counts s)); vm_compute in H;
        intuition discriminate.
    + exfalso. vm_compute in H. intuition discriminate.
    + destruct (length (filtered s) =? 0)%nat; [now apply Hlen | destruct H].
    + contradiction.
    + exfalso. vm_compute in H. intuition discriminate.
  - intros E. apply Hlen in E. rewrite E. right. right. right. left. now left.
Qed.

Lemma count_completed_pos (l : list Todo.t) :
  (0 < count_completed l)%nat <-> exists t, In t l /\ Todo.completed t = true.
Proof.
  induction l as [|t l IH]; cbn [count_completed].
  - split; [lia | intros (t & [] & _)].
  - destruct (Todo.completed t) eqn:E.
    + split; [intros _; exists t; split; [now left | exact E] | lia].
    + rewrite Nat.add_0_l, IH. split.
      * intros (x & Hx & Hc). exists x. split; [now right | exact Hc].
      * intros (x & [<-|Hx] & Hc); [congruence | eauto].
Qed.

Lemma clear_shown_iff (s : State) :
  (0 <? Counts.completed (counts s)) = true
  <-> exists t, In t (todos s) /\ Todo.completed t = true.
Proof.
  rewrite counts_of_list. cbn [Counts.completed].
  rewrite <- count_completed_pos, Z.ltb_lt. lia.
Qed.

Lemma clear_handler_iff (s : State) (i : list N) :
  In (HStore ClearCompleted) (handlers_of (render s i))
  <-> (0 <? Counts.completed (counts s)) = true.
Proof.
  rewrite handlers_App, !in_app_iff. split.
  - intros [H|[H|H]].
    + cbn in H. intuition discriminate.
    + destruct (0 <? Counts.completed (counts s)); [reflexivity | destruct H].
    + apply in_flat_map in H as (t & _ & Ht). cbn in Ht. intuition discriminate.
  - intros ->. right. left. now left.
Qed.

(** X13: the clear button is in the tree exactly when some task of the
    list is done, whatever the filter shows; firing it removes the done
    tasks, so the button is gone from the next tree. *)
Theorem clear_button_shown (s : State) (i : list N) :
  (In (HStore ClearCompleted) (handlers_of (render s i))
   <-> exists t, In t (todos s) /\ Todo.completed t = true)
  /\ (forall env typed,
        let a' := fire (HStore ClearCompleted) env typed
                    {| store := s; input := i |} in
        ~ In (HStore ClearCompleted) (handlers_of (render (store a') (input a')))).
Proof.
  split.
  - rewrite clear_handler_iff. apply clear_shown_iff.
  - intros env typed. cbv zeta. cbn [fire store input step].
    rewrite clear_handler_iff, clear_shown_iff.
    intros (t & Hin & Hc). apply filter_In in Hin as [_ Hact].
    rewrite Hc in Hact. discriminate.
Qed.

(** X14: the note for an empty list is in the tree exactly when no task
    matches the filter: under ["active"] it is shown as soon as every task
    is done, although the list is not empty. *)
Theorem empty_note_shown (s : State) (i : list N) :
  (In (lit "empty") (classes_of (render s i)) <-> filtered s = [])
  /\ (In (lit "empty") (classes_of (render s i)) <-> keys_of (render s i) = [])
  /\ (filter s = VStr (lit "active") ->
      (In (lit "empty") (classes_of (render s i))
       <-> forall t, In t (todos s) -> Todo.completed t = true)).
Proof.
  split; [apply classes_App|]. split.
  - rewrite classes_App, keys_App. unfold ids.
    split; [intros ->; reflexivity | apply map_eq_nil].
  - intros Hf. rewrite classes_App. unfold filtered. rewrite Hf.
    change (strict_eq_string (VStr (lit "active")) (lit "active")) with true.
    cbv iota. split.
    + intros E t Ht. destruct (Todo.completed t) eqn:C; [reflexivity|].
      assert (Hin : In t (List.filter (fun t => negb (Todo.completed t)) (todos s))).
      { apply filter_In. split; [exact Ht | now rewrite C]. }
      rewrite E in Hin. destruct Hin.
    + intros Hall. destruct (List.filter _ (todos s)) as [|t l] eqn:E; [reflexivity|].
      assert (Hin : In t (List.filter (fun t => negb (Todo.completed t)) (todos s)))
        by (rewrite E; now left).
      apply filter_In in Hin as [Ht Hc]. rewrite (Hall t Ht) in Hc. discriminate.
Qed.

Lemma ids_filtered_sublist (s : State) : sublist (ids (filtered s)) (ids (todos s)).
Proof.
  unfold filtered.
  destruct (strict_eq_string _ _); [apply ids_filter_sublist|].
  destruct (strict_eq_string _ _); [apply ids_filter_sublist | reflexivity].
Qed.

Lemma item_handler_iff (s : State) (i : list N) (id : list N) :
  (In (HStore (ToggleTodo id)) (handlers_of (render s i)) <-> In id (ids (filtered s)))
  /\ (In (HStore (DeleteTodo id)) (handlers_of (render s i)) <-> In id (ids (filtered s))).
Proof.
  rewrite handlers_App, !in_app_iff. unfold ids. rewrite in_map_iff.
  split; split.
  - intros [H|[H|H]].
    + cbn in H. intuition discriminate.
    + destruct (0 <? _); cbn in H; intuition discriminate.
    + apply in_flat_map in H as (t & Ht & [H|[H|[]]]); [|discriminate].
      injection H as <-. eauto.
  - intros (t & <- & Ht). right. right. apply in_flat_map.
    exists t. split; [exact Ht | now left].
  - intros [H|[H|H]].
    + cbn in H. intuition discriminate.
    + destruct (0 <? _); cbn in H; intuition discriminate.
    + apply in_flat_map in H as (t & Ht & [H|[H|[]]]); [discriminate|].
      injection H as <-. eauto.
  - intros (t & <- & Ht). right. right. apply in_flat_map.
    exists t. split; [exact Ht | right; now left].
Qed.

(** X15: the list items of the tree are the tasks of the view: their keys
    are the ids of the view in order, and a checkbox or a delete button for
    an id is in the tree exactly when a task of the view has that id; so the
    view never asks the store to toggle or delete an id that no task of the
    list has, and the keys are pairwise distinct when the ids are. *)
Theorem items_match_view (s : State) (i : list N) :
  keys_of (render s i) = ids (filtered s)
  /\ (forall id,
        (In (HStore (ToggleTodo id)) (handlers_of (render s i))
         <-> In id (ids (filtered s)))
        /\ (In (HStore (DeleteTodo id)) (handlers_of (render s i))
            <-> In id (ids (filtered s))))
  /\ (forall id, In id (ids (filtered s)) -> In id (ids (todos s)))
  /\ (NoDup (ids (todos s)) -> NoDup (keys_of (render s i))).
Proof.
  split; [apply keys_App|]. split; [intros id; apply item_handler_iff|]. split.
  - intros id Hid. rewrite <- list_elem_of_In in *.
    eapply sublist_subseteq; [apply ids_filtered_sublist | exact Hid].
  - intros Hnd. rewrite keys_App.
    exact (sublist_NoDup _ _ Hnd (ids_filtered_sublist s)).
Qed.

Lemma selected_tabs (v : value) :
  let tabs :=
    [(strict_eq_string v (lit "all"), HStore (SetFilter (VStr (lit "all"))));
     (strict_eq_string v (lit "active"), HStore (SetFilter (VStr (lit "active"))));
     (strict_eq_string v (lit "completed"),
      HStore (SetFilter (VStr (lit "completed"))))] in
  (length (List.filter fst tabs) <= 1)%nat
  /\ (length (List.filter fst tabs) = 1%nat
      <-> v = VStr (lit "all") \/ v = VStr (lit "active")
          \/ v = VStr (lit "completed")).
Proof.
  cbv zeta. rewrite <- !strict_eq_string_true.
  destruct (strict_eq_string v (lit "all")) eqn:A;
    destruct (strict_eq_string v (lit "active")) eqn:B;
    destruct (strict_eq_string v (lit "completed")) eqn:C;
    try (apply strict_eq_string_true in A);
    try (apply strict_eq_string_true in B);
    try (apply strict_eq_string_true in C);
    try (subst v; discriminate);
    cbn [List.filter fst length]; split; try lia; intuition (try discriminate; lia).
Qed.

(** X16: the filter row holds the three buttons All, Active and Completed,
    each firing [setFilter] with its own name; at most one of them is
    selected, one is exactly when the filter is one of the three names (no
    button is selected under any other stored or set value), and after a
    button is fired it is the selected one. *)
Theorem filter_tabs (s : State) (i : list N) :
  List.map snd (tabs_of (render s i))
  = [HStore (SetFilter (VStr (lit "all")));
     HStore (SetFilter (VStr (lit "active")));
     HStore (SetFilter (VStr (lit "completed")))]
  /\ (length (List.filter fst (tabs_of (render s i))) <= 1)%nat
  /\ (length (List.filter fst (tabs_of (render s i))) = 1%nat
      <-> filter s = VStr (lit "all") \/ filter s = VStr (lit "active")
          \/ filter s = VStr (lit "completed"))
  /\ (forall b h env typed,
        In (b, h) (tabs_of (render s i)) ->
        let a' := fire h env typed {| store := s; input := i |} in
        List.filter fst (tabs_of (render (store a') (input a'))) = [(true, h)]).
Proof.
  rewrite tabs_App. split; [reflexivity|].
  destruct (selected_tabs (filter s)) as [Hle Hone].
  split; [exact Hle|]. split; [exact Hone|].
  intros b h env typed Hin. cbv zeta.
  destruct Hin as [H|[H|[H|[]]]]; injection H as _ <-;
    cbn [fire store input step]; rewrite tabs_App; reflexivity.
Qed.

Lemma submit_handler_in (s : State) (i : list N) :
  In HSubmit (handlers_of (render s i)) /\ In HInput (handlers_of (render s i)).
Proof. rewrite handlers_App. split; [now left | right; now left]. Qed.

(** X17: the input field shows the text of the state; a change event puts
    the typed text there and changes no task; submitting always empties the
    field, adds nothing when the text was white space only, and otherwise
    puts one new active task with the trimmed text first in the list. *)
Theorem form_events (env : Readings) (typed : list N) (a : AppState) :
  values_of (render (store a) (input a)) = [input a]
  /\ In HSubmit (handlers_of (render (store a) (input a)))
  /\ In HInput (handlers_of (render (store a) (input a)))
  /\ fire HInput env typed a = {| store := store a; input := typed |}
  /\ input (fire HSubmit env typed a) = []
  /\ (forallb is_white_space (input a) = true ->
      store (fire HSubmit env typed a) = store a)
  /\ (forallb is_white_space (input a) = false ->
      exists t,
        todos (store (fire HSubmit env typed a)) = t :: todos (store a)
        /\ Todo.title t = trim (input a)
        /\ Todo.completed t = false
        /\ filter (store (fire HSubmit env typed a)) = filter (store a)).
Proof.
  split; [apply values_App|]. split; [apply submit_handler_in|].
  split; [apply submit_handler_in|]. split; [reflexivity|]. split; [reflexivity|].
  cbn [fire onSubmit store].
  destruct (addTodo_cases env (input a) (store a)) as [[E ->]|[E ->]]; split.
  - reflexivity.
  - intros H. apply trim_empty_iff in E. congruence.
  - intros H. apply trim_empty_iff in H. contradiction.
  - intros _. eexists. cbn [todos filter]. repeat split; reflexivity.
Qed.

End ComponentProperties.

(** * The first render on stored values *)

(** X18: the first call of the hook returns exactly when the list cell
    restored from the storage is an array none of whose elements is [null]:
    any other stored value that parses (a number, a string, an object,
    [null], an array holding [null]) makes it throw, and every text that
    does not parse is replaced by the empty list first. *)
Theorem mount_returns_iff (st : Storage) :
  (exists v, mount st = Return v)
  <-> exists l,
        restored STORAGE_KEY (VArr []) st = VArr l
        /\ Forall (fun x => x <> VNull /\ x <> VUndefined) l.
Proof.
  unfold mount. rewrite initial_cells_restored.
  cbn [mbind outcome_bind bind]. apply render_cells_returns.
Qed.
